(** * BaristaBot: the order node, the turn router and the start-up check

    A shallow embedding of [baristabot_app.py].  The Python module is a
    script: it checks its configuration, builds a three-node state graph
    (chatbot / ordering / tools) and runs a form loop around it.  The only
    logic of its own is [order_node], the routing lambda and the
    credential check; these are embedded below, statement by statement.

    Conventions.
    - A Python [str] is a [string]; concatenation and [', '.join] are
      [+:+] and [String.concat].  Iterating over the characters of a
      [str] and Python's [repr] are services of the interpreter and are
      taken as parameters of the development ([chars], [repr]).
    - A [dict] with string keys is a [gmap string _].
    - Exceptions are the [Raise] outcome of [result].
    - [random.randint] draws from an explicit generator state that is
      threaded through the code. *)

From Stdlib Require Import ZArith Ascii String List Bool.
From stdpp Require Import base option list gmap strings pretty.

Local Open Scope Z_scope.
Local Open Scope string_scope.
Local Open Scope list_scope.

(** ** Outcomes of Python code *)

Inductive exn : Type :=
| IndexError
| AttributeError (attr : string)
| KeyError (key : string)
| ValueError (msg : string).

Inductive result (A : Type) : Type :=
| Ok (a : A)
| Raise (e : exn).

Arguments Ok {A} a.
Arguments Raise {A} e.

(** ** Data model *)

(** The values an argument mapping holds, at the types the tool
    signatures declare: [str] and [list[str]].  The node does not
    validate what it is sent: other values (a number, [None], a list
    with an element that is not a [str]) are outside this model, and so
    is the [TypeError] that [', '.join] raises on them. *)
Inductive value : Type :=
| VStr (s : string)
| VList (l : list string).

(** One entry of [AIMessage.tool_calls]: the dict with keys ["name"],
    ["args"] and ["id"]. *)
Record ToolCall : Type := mkToolCall {
  tc_name : string;
  tc_args : gmap string value;
  tc_id : string
}.

(** The message classes the program meets.  Only [AIMessage] has a
    [tool_calls] attribute; a reply without tool requests carries the
    empty list. *)
Inductive Message : Type :=
| HumanMessage (content : string)
| AIMessage (content : string) (tool_calls : list ToolCall)
| ToolMessage (content : string) (name : string) (tool_call_id : string).

(** [class OrderState(TypedDict)].  The key ["order"] is read with
    [state.get("order", [])], so its absence is part of the model. *)
Record OrderState : Type := mkOrderState {
  messages : list Message;
  order : option (list string);
  finished : bool
}.

(** The names of the graph's nodes, and the end of a graph run. *)
Inductive Node : Type :=
| chatbot
| ordering
| tools
| END.

(** ** Constants *)

(** The newline character. *)
Definition nl : string := String (ascii_of_nat 10) "".

Definition MENU : string :=
  nl +:+ "MENU:" +:+
  nl +:+ "Coffee Drinks:" +:+
  nl +:+ "Espresso, Americano, Cold Brew, Latte, Cappuccino, Mocha" +:+
  nl +:+
  nl +:+ "Modifiers:" +:+
  nl +:+ "Milk: Whole, Oat, Almond" +:+
  nl +:+ "Sweeteners: Vanilla, Hazelnut, Caramel" +:+
  nl.

(** [BARISTABOT_SYSINT], the tuple that heads every prompt. *)
Definition BARISTABOT_SYSINT : string * string :=
  ("system",
   "You are BaristaBot, a virtual barista to help users order from the cafe menu. Guide them through selecting drinks " +:+
   "and modifiers, confirming orders, and placing them. Provide polite and helpful responses.").

Definition key_not_found : string :=
  "Google API key not found! Add it to a .env file.".

(** ** Python primitives on the modelled values *)

(** [sep.join(l)] on a list of [str]. *)
Definition join (sep : string) (l : list string) : string :=
  String.concat sep l.

(** Truthiness: the empty [str] and the empty list are false. *)
Definition truthy (v : value) : bool :=
  match v with
  | VStr s => negb (String.eqb s "")
  | VList l => negb (bool_decide (l = []))
  end.

(** [d[k]] on a dict. *)
Definition getitem {A} (d : gmap string A) (k : string) : result A :=
  match d !! k with
  | Some v => Ok v
  | None => Raise (KeyError k)
  end.

(** [l[-1]] on a list. *)
Definition last_item {A} (l : list A) : result A :=
  match last l with
  | Some x => Ok x
  | None => Raise IndexError
  end.

(** [msg.tool_calls], and [hasattr(msg, "tool_calls")]. *)
Definition get_tool_calls (msg : Message) : result (list ToolCall) :=
  match msg with
  | AIMessage _ tcs => Ok tcs
  | _ => Raise (AttributeError "tool_calls")
  end.

Definition hasattr_tool_calls (msg : Message) : bool :=
  match msg with
  | AIMessage _ _ => true
  | _ => false
  end.

(** ** The turn router

    [lambda state: "ordering" if hasattr(state["messages"][-1],
    "tool_calls") else "chatbot"] *)

Definition route (state : OrderState) : result Node :=
  match last_item (messages state) with
  | Ok msg => Ok (if hasattr_tool_calls msg then ordering else chatbot)
  | Raise e => Raise e
  end.

(** ** Start-up

    [load_dotenv()] copies the entries of the [.env] file into the
    process environment without overriding what is set there. *)

Definition load_dotenv (dotenv environ : gmap string string) : gmap string string :=
  environ ∪ dotenv.

Definition getenv (environ : gmap string string) (k : string) : option string :=
  environ !! k.

(** Lines 15 to 22 of the script.  [not GOOGLE_API_KEY] holds when
    [os.getenv] gave [None] and when it gave the empty string.  The
    result is the environment after
    [os.environ["GOOGLE_API_KEY"] = GOOGLE_API_KEY]. *)
Definition startup (dotenv environ : gmap string string) : result (gmap string string) :=
  let environ := load_dotenv dotenv environ in
  match getenv environ "GOOGLE_API_KEY" with
  | None => Raise (ValueError key_not_found)
  | Some GOOGLE_API_KEY =>
      if String.eqb GOOGLE_API_KEY "" then Raise (ValueError key_not_found)
      else Ok (<["GOOGLE_API_KEY" := GOOGLE_API_KEY]> environ)
  end.

(** ** The graph's state update

    The graph applies the dict a node returns to the state, key by key:
    ["messages"] is declared with the reducer [add_messages], which
    appends the new messages; the other keys are overwritten.  The
    reducer appends a message whose identifier is new, as those of a
    session are (a tool result is given a fresh one, a reply carries
    its own); that it replaces a message whose identifier is already in
    the history is not modelled, messages having no identifier here. *)

Definition apply_update (state update : OrderState) : OrderState :=
  {| messages := messages state ++ messages update;
     order := order update;
     finished := finished update |}.

(** The chatbot node returns [{"messages": [reply]}], where [reply] is
    the answer of the hosted model: only ["messages"] is updated. *)
Definition chatbot_node (reply : Message) (state : OrderState) : OrderState :=
  {| messages := messages state ++ [reply];
     order := order state;
     finished := finished state |}.

(** [main] starts every session from this state. *)
Definition initial_state : OrderState :=
  {| messages := []; order := Some []; finished := false |}.

(** ** Reading a request against the declared tool signatures *)

(** A call that [order_node] can process without a [KeyError]:
    [add_to_order] carries both of its arguments. *)
Definition has_args (tc : ToolCall) : bool :=
  if String.eqb (tc_name tc) "add_to_order" then
    bool_decide (is_Some (tc_args tc !! "drink")) &&
    bool_decide (is_Some (tc_args tc !! "modifiers"))
  else true.

(** [tc] is a request [add_to_order(drink, modifiers)] typed as the
    signature declares. *)
Definition is_add (tc : ToolCall) (item : string * list string) : Prop :=
  tc_name tc = "add_to_order" ∧
  tc_args tc !! "drink" = Some (VStr item.1) ∧
  tc_args tc !! "modifiers" = Some (VList item.2).

(** The rendering of a line item: the drink, then the modifiers joined
    by commas in parentheses, or the words "no modifiers". *)
Definition line_item (item : string * list string) : string :=
  item.1 +:+ " (" +:+
  match item.2 with
  | [] => "no modifiers"
  | _ :: _ => join ", " item.2
  end +:+ ")".

(** The replies to a run of [add_to_order] requests that starts from
    the order [o]: each one lists the order as it is after its item. *)
Fixpoint add_replies (o : list string) (calls : list ToolCall)
    (items : list (string * list string)) : list Message :=
  match calls, items with
  | tc :: calls', item :: items' =>
      let o' := o ++ [line_item item] in
      ToolMessage ("Order updated: " +:+ join ", " o' +:+ ".") (tc_name tc) (tc_id tc)
        :: add_replies o' calls' items'
  | _, _ => []
  end.


Definition named (n : string) (tc : ToolCall) : bool := String.eqb (tc_name tc) n.

(** The names the [if]/[elif] chain tests for. *)
Definition handled : list string :=
  ["add_to_order"; "confirm_order"; "clear_order"; "place_order"].

(** The names registered in [tools]. *)
Definition catalog : list string :=
  ["get_menu"; "add_to_order"; "confirm_order"; "clear_order"; "place_order"].

(** A reply of the model whose requests all carry their arguments. *)
Definition valid_reply (m : Message) : bool :=
  match m with
  | AIMessage _ calls => forallb has_args calls
  | _ => true
  end.

(** The module run as a script: the configuration check of lines 15 to
    22, then everything below it (the graph, [main] and the requests it
    serves) as a continuation [rest] of the environment. *)
Definition script {A} (dotenv environ : gmap string string)
    (rest : gmap string string → result A) : result A :=
  match startup dotenv environ with
  | Ok environ' => rest environ'
  | Raise e => Raise e
  end.

(** How a call of [chat_graph.invoke] ends: with the final state, with
    the exception of a node or of the routing function, or with the
    runner's error for a run that exceeds its limit of steps. *)
Inductive Outcome : Type :=
| Returned (state : OrderState)
| Failed (e : exn)
| GraphRecursionError.

(** [n] nodes that alternate, starting with [first]. *)
Fixpoint alternating (n : nat) (first second : Node) : list Node :=
  match n with
  | O => []
  | S n' => first :: alternating n' second first
  end.

(** What [order_node] reads of a request: the name, the identifier and,
    for [add_to_order], the two arguments it looks up. *)
Definition relevant (tc : ToolCall)
    : string * string * option value * option value :=
  if String.eqb (tc_name tc) "add_to_order" then
    (tc_name tc, tc_id tc, tc_args tc !! "drink", tc_args tc !! "modifiers")
  else (tc_name tc, tc_id tc, None, None).

(** The text of a message. *)
Definition content_of (m : Message) : string :=
  match m with
  | HumanMessage c => c
  | AIMessage c _ => c
  | ToolMessage c _ _ => c
  end.

(** ** A deterministic runtime, for running the program on examples *)

(** A generator that counts: the [n]-th draw of [randint a b] is
    [a + n mod (b - a + 1)]. *)
Definition counting_randint (a b : Z) (g : Z) : Z * Z :=
  (a + g `mod` (b - a + 1), g + 1).

(** [repr] on text without quotes, backslashes or control characters. *)
Definition plain_repr (s : string) : string := "'" +:+ s +:+ "'".

(** The characters of ASCII text. *)
Definition ascii_chars (s : string) : list string :=
  (λ c, String c "") <$> list_ascii_of_string s.

Definition call (name : string) (args : list (string * value)) (id : string) : ToolCall :=
  {| tc_name := name; tc_args := list_to_map args; tc_id := id |}.

Definition add_latte : ToolCall :=
  call "add_to_order" [("drink", VStr "Latte"); ("modifiers", VList ["Oat"; "Vanilla"])] "c1".

Definition add_espresso : ToolCall :=
  call "add_to_order" [("drink", VStr "Espresso"); ("modifiers", VList [])] "c2".

Definition do_confirm : ToolCall := call "confirm_order" [("order", VList [])] "c3".
Definition do_clear : ToolCall := call "clear_order" [] "c4".
Definition do_place : ToolCall := call "place_order" [("order", VList [])] "c5".
Definition do_menu : ToolCall := call "get_menu" [] "c6".
Definition do_refund : ToolCall := call "refund_order" [] "c7".

(** The session after the model asked to place the (empty) order, and
    after it then asked for a confirmation. *)
Definition after_place : OrderState :=
  {| messages :=
       [AIMessage "" [do_place];
        ToolMessage "Order placed! ETA: 1 minutes." "place_order" "c5"];
     order := Some [];
     finished := true |}.

Definition after_confirm : OrderState :=
  {| messages :=
       messages after_place ++
       [AIMessage "" [do_confirm];
        ToolMessage "Your order is: . Is this correct?" "confirm_order" "c3"];
     order := Some [];
     finished := false |}.

(** A request that lacks its modifiers, and one that lacks both
    arguments. *)
Definition add_no_modifiers : ToolCall :=
  call "add_to_order" [("drink", VStr "Mocha")] "c8".

Definition add_no_args : ToolCall := call "add_to_order" [] "c9".

(** A model that always answers with the same plain reply. *)
Definition plain_model (prompt : list (string * string + Message)) : Message :=
  AIMessage "How can I help?" [].

(** A stand-in for the prebuilt tool node. *)
Definition idle_tool_node (state : OrderState) (g : Z) : result (OrderState * Z) :=
  Ok (state, g).

(** The session after the model, the order placed, asked for a refund. *)
Definition after_refund : OrderState :=
  {| messages :=
       messages after_place ++
       [AIMessage "" [do_refund];
        ToolMessage "Unrecognized action." "refund_order" "c7"];
     order := Some [];
     finished := false |}.

(** A session in which a latte has been ordered. *)
Definition with_latte : OrderState :=
  {| messages := [HumanMessage "A latte, please."];
     order := Some ["Latte (Oat, Vanilla)"];
     finished := false |}.

(** ** The interpreter services and the program that uses them *)

Section Runtime.

(** The state of the random generator and [random.randint]. *)
Variable rng : Type.
Variable randint : Z → Z → rng → Z * rng.

(** The documented contract of [randint(a, b)]: an integer [N] with
    [a <= N <= b]. *)
Hypothesis randint_range :
  ∀ (a b : Z) (g : rng), (a ≤ b)%Z → (a ≤ (randint a b g).1 ≤ b)%Z.

(** [repr] of a [str], and the one-character strings of a [str]. *)
Variable repr : string → string.
Variable chars : string → list string.

(** Code that may raise and may draw random numbers. *)
Definition M (A : Type) : Type := rng → result (A * rng).

Definition ret {A} (a : A) : M A := λ g, Ok (a, g).

Definition bind {A B} (c : M A) (k : A → M B) : M B :=
  λ g, match c g with
       | Ok (a, g') => k a g'
       | Raise e => Raise e
       end.

Definition lift {A} (r : result A) : M A :=
  λ g, match r with
       | Ok a => Ok (a, g)
       | Raise e => Raise e
       end.

Definition draw (a b : Z) : M Z := λ g, Ok (randint a b g).

Notation "'let*' x ':=' c 'in' k" := (bind c (λ x, k))
  (at level 10, x name, c at level 100, k at level 200).

(** [for x in xs: body], threading the variables the body assigns. *)
Fixpoint for_each {A S} (body : A → S → M S) (xs : list A) (s : S) : M S :=
  match xs with
  | [] => ret s
  | x :: xs' => let* s' := body x s in for_each body xs' s'
  end.

(** [f"{v}"]: a [str] is inserted as it is, a list through [repr]. *)
Definition format (v : value) : string :=
  match v with
  | VStr s => s
  | VList l => "[" +:+ join ", " (repr <$> l) +:+ "]"
  end.

(** [', '.join(v)]: a [str] is joined character by character. *)
Definition join_value (v : value) : string :=
  match v with
  | VStr s => join ", " (chars s)
  | VList l => join ", " l
  end.

(** [f"{', '.join(modifiers) if modifiers else 'no modifiers'}"] *)
Definition modifiers_text (modifiers : value) : string :=
  if truthy modifiers then join_value modifiers else "no modifiers".

(** *** The tool functions (the bodies under [@tool]) *)

Definition get_menu : string := MENU.

Definition add_to_order (drink modifiers : value) : string :=
  "Added " +:+ format drink +:+ " with " +:+ modifiers_text modifiers +:+ ".".

Definition confirm_order (order : list string) : string :=
  "Your current order is: " +:+ join ", " order +:+ ".".

Definition clear_order : string := "Order cleared.".

Definition place_order (order : list string) : M Z := draw 1 5.

(** *** The order node *)

(** The variables of [order_node] that the loop assigns. *)
Record Locals : Type := mkLocals {
  l_order : list string;
  l_outbound_msgs : list Message;
  l_order_placed : bool
}.

(** The [if]/[elif] chain: the response, the order and the flag after
    one tool call. *)
Definition dispatch (tool_call : ToolCall) (order : list string) (order_placed : bool)
  : M (string * list string * bool) :=
  if String.eqb (tc_name tool_call) "add_to_order" then
    let* drink := lift (getitem (tc_args tool_call) "drink") in
    let* modifiers := lift (getitem (tc_args tool_call) "modifiers") in
    let order := order ++ [format drink +:+ " (" +:+ modifiers_text modifiers +:+ ")"] in
    ret ("Order updated: " +:+ join ", " order +:+ ".", order, order_placed)
  else if String.eqb (tc_name tool_call) "confirm_order" then
    ret ("Your order is: " +:+ join ", " order +:+ ". Is this correct?", order, order_placed)
  else if String.eqb (tc_name tool_call) "clear_order" then
    ret ("Order cleared.", [], order_placed)
  else if String.eqb (tc_name tool_call) "place_order" then
    let* eta := draw 1 5 in
    ret ("Order placed! ETA: " +:+ pretty eta +:+ " minutes.", order, true)
  else
    ret ("Unrecognized action.", order, order_placed).

(** The loop body: the chain, then [outbound_msgs.append(ToolMessage(...))]. *)
Definition loop_body (tool_call : ToolCall) (l : Locals) : M Locals :=
  let* r := dispatch tool_call (l_order l) (l_order_placed l) in
  let '(response, order, order_placed) := r in
  ret {| l_order := order;
         l_outbound_msgs := l_outbound_msgs l ++
           [ToolMessage response (tc_name tool_call) (tc_id tool_call)];
         l_order_placed := order_placed |}.

(** [order] is the list object held by the state: [append] and [clear]
    act on it in place, and the dict returned holds that same object, so
    on return its contents are all there is to know.  The flag is the
    local [order_placed], which every call starts at [False]. *)
Definition order_node (state : OrderState) : M OrderState :=
  let* tool_msg := lift (last_item (messages state)) in
  let order := default [] (order state) in
  let outbound_msgs := [] in
  let order_placed := false in
  let* tool_calls := lift (get_tool_calls tool_msg) in
  let* l := for_each loop_body tool_calls
              {| l_order := order; l_outbound_msgs := outbound_msgs;
                 l_order_placed := order_placed |} in
  ret {| messages := l_outbound_msgs l;
         order := Some (l_order l);
         finished := l_order_placed l |}.

(** *** The graph around the node *)

(** The ordering node as the graph runs it: [order_node], then the
    state update. *)
Definition ordering_node (state : OrderState) : M OrderState :=
  let* update := order_node state in
  ret (apply_update state update).

(** One round of the graph: the chatbot node appends the model's
    reply, the conditional edge picks the next node, and when that is
    the ordering node it runs and hands back to the chatbot. *)
Definition round (reply : Message) (state : OrderState) : M OrderState :=
  let state := chatbot_node reply state in
  let* next := lift (route state) in
  match next with
  | ordering => ordering_node state
  | _ => ret state
  end.

(** A session fragment driven by the model's successive replies. *)
Definition rounds (replies : list Message) (state : OrderState) : M OrderState :=
  for_each round replies state.

(** A request that leaves the order, the flag and the generator alone
    and only adds the reply [reply order]. *)
Definition only_replies (tc : ToolCall) (reply : list string → string) : Prop :=
  ∀ l g,
    loop_body tc l g =
    Ok ({| l_order := l_order l;
           l_outbound_msgs :=
             l_outbound_msgs l ++
             [ToolMessage (reply (l_order l)) (tc_name tc) (tc_id tc)];
           l_order_placed := l_order_placed l |}, g).

(** *** The whole graph *)

(** The hosted model behind [llm_with_tools.invoke], as a function of
    the prompt it is sent, and the prebuilt [ToolNode(tools)]. *)
Variable llm_invoke : list (string * string + Message) → Message.
Variable tool_node : OrderState → M OrderState.

(** [[BARISTABOT_SYSINT] + state["messages"]] *)
Definition prompt (state : OrderState) : list (string * string + Message) :=
  inl BARISTABOT_SYSINT :: (inr <$> messages state).

(** The chatbot node: the lambda of [add_node("chatbot", ...)]. *)
Definition chatbot_lambda (state : OrderState) : OrderState :=
  chatbot_node (llm_invoke (prompt state)) state.

(** The node functions given to [add_node]. *)
Definition run_node (node : Node) (state : OrderState) : M OrderState :=
  match node with
  | chatbot => ret (chatbot_lambda state)
  | ordering => ordering_node state
  | tools => tool_node state
  | END => ret state
  end.

(** The edges: the conditional edge out of the chatbot, and
    [add_edge("tools", "chatbot")], [add_edge("ordering", "chatbot")].
    The conditional edge reads the state the node has just updated. *)
Definition next_node (node : Node) (state : OrderState) : result Node :=
  match node with
  | chatbot => route state
  | ordering => Ok chatbot
  | tools => Ok chatbot
  | END => Ok END
  end.

(** A run of the compiled graph from [node]: nodes run one after the
    other along the edges until the run reaches [END], a node raises, or
    [limit] steps are used up.  The second component lists the nodes
    that ran.  The runner itself refuses a limit below 1 before any node
    runs, so a call of the program corresponds to [limit >= 1]. *)
Fixpoint run_from (limit : nat) (node : Node) (state : OrderState) (g : rng)
    : Outcome * list Node :=
  match node with
  | END => (Returned state, [])
  | _ =>
      match limit with
      | O => (GraphRecursionError, [])
      | S limit' =>
          match run_node node state g with
          | Raise e => (Failed e, [node])
          | Ok (state', g') =>
              match next_node node state' with
              | Raise e => (Failed e, [node])
              | Ok node' =>
                  let '(outcome, trace) := run_from limit' node' state' g' in
                  (outcome, node :: trace)
              end
          end
      end
  end.

(** [chat_graph.invoke(state)]: [add_edge(START, "chatbot")] makes the
    chatbot the first node. *)
Definition invoke (limit : nat) (state : OrderState) (g : rng) : Outcome * list Node :=
  run_from limit chatbot state g.

(** *** The node on the list object itself

    [order_node] appends to and clears the list that the state holds.
    Here that list object is a store of its own, which an exception
    leaves as it is at that moment, as it leaves the generator. *)

Definition H (A : Type) : Type :=
  list string → rng → result A * (list string * rng).

Definition retH {A} (a : A) : H A := λ o g, (Ok a, (o, g)).

Definition bindH {A B} (c : H A) (k : A → H B) : H B :=
  λ o g, match c o g with
         | (Ok a, (o', g')) => k a o' g'
         | (Raise e, s) => (Raise e, s)
         end.

Definition liftH {A} (r : result A) : H A := λ o g, (r, (o, g)).

(** [order.append(x)], [order.clear()], reading [order], [randint]. *)
Definition appendH (x : string) : H unit := λ o g, (Ok tt, (o ++ [x], g)).
Definition clearH : H unit := λ o g, (Ok tt, ([], g)).
Definition readH : H (list string) := λ o g, (Ok o, (o, g)).
Definition drawH (a b : Z) : H Z :=
  λ o g, (Ok (randint a b g).1, (o, (randint a b g).2)).

Notation "'let!' x ':=' c 'in' k" := (bindH c (λ x, k))
  (at level 10, x name, c at level 100, k at level 200).

Fixpoint for_eachH {A S} (body : A → S → H S) (xs : list A) (s : S) : H S :=
  match xs with
  | [] => retH s
  | x :: xs' => let! s' := body x s in for_eachH body xs' s'
  end.

(** The [if]/[elif] chain, statement by statement: the response and
    the flag. *)
Definition dispatch_inplace (tool_call : ToolCall) (order_placed : bool)
  : H (string * bool) :=
  if String.eqb (tc_name tool_call) "add_to_order" then
    let! drink := liftH (getitem (tc_args tool_call) "drink") in
    let! modifiers := liftH (getitem (tc_args tool_call) "modifiers") in
    let! _ := appendH (format drink +:+ " (" +:+ modifiers_text modifiers +:+ ")") in
    let! order := readH in
    retH ("Order updated: " +:+ join ", " order +:+ ".", order_placed)
  else if String.eqb (tc_name tool_call) "confirm_order" then
    let! order := readH in
    retH ("Your order is: " +:+ join ", " order +:+ ". Is this correct?", order_placed)
  else if String.eqb (tc_name tool_call) "clear_order" then
    let! _ := clearH in
    retH ("Order cleared.", order_placed)
  else if String.eqb (tc_name tool_call) "place_order" then
    let! eta := drawH 1 5 in
    retH ("Order placed! ETA: " +:+ pretty eta +:+ " minutes.", true)
  else
    retH ("Unrecognized action.", order_placed).

(** The loop body on [outbound_msgs] and [order_placed]. *)
Definition loop_body_inplace (tool_call : ToolCall) (v : list Message * bool)
  : H (list Message * bool) :=
  let! r := dispatch_inplace tool_call v.2 in
  retH (v.1 ++ [ToolMessage r.1 (tc_name tool_call) (tc_id tool_call)], r.2).

(** The node, with what the list object of the state holds when the
    call ends: [None] when the state has no key ["order"], for then the
    list the node works on is a fresh one. *)
Definition order_node_inplace (state : OrderState) (g : rng)
  : result OrderState * (option (list string) * rng) :=
  match last_item (messages state) with
  | Raise e => (Raise e, (order state, g))
  | Ok tool_msg =>
      match get_tool_calls tool_msg with
      | Raise e => (Raise e, (order state, g))
      | Ok tool_calls =>
          match for_eachH loop_body_inplace tool_calls ([], false)
                  (default [] (order state)) g with
          | (Ok v, (o, g')) =>
              (Ok {| messages := v.1; order := Some o; finished := v.2 |},
               ((λ _, o) <$> order state, g'))
          | (Raise e, (o, g')) => (Raise e, ((λ _, o) <$> order state, g'))
          end
      end
  end.

(** *** Running monadic code *)

Lemma bind_ok {A B} (c : M A) (k : A → M B) g a g' :
  c g = Ok (a, g') → bind c k g = k a g'.
Proof. intros H. unfold bind. now rewrite H. Qed.

Lemma bind_inv {A B} (c : M A) (k : A → M B) g b g2 :
  bind c k g = Ok (b, g2) → ∃ a g1, c g = Ok (a, g1) ∧ k a g1 = Ok (b, g2).
Proof.
  unfold bind. destruct (c g) as [[a g1]|e]; [|discriminate].
  intros H. now exists a, g1.
Qed.

Lemma for_each_app {A S} (body : A → S → M S) xs ys s g :
  for_each body (xs ++ ys) s g = bind (for_each body xs s) (for_each body ys) g.
Proof.
  revert s g. induction xs as [|x xs IH]; intros s g; [reflexivity|].
  cbn [for_each app]. unfold bind.
  destruct (body x s g) as [[s' g']|e]; [|reflexivity].
  rewrite IH. reflexivity.
Qed.

Lemma last_item_snoc {A} (l : list A) x : last_item (l ++ [x]) = Ok x.
Proof. unfold last_item. now rewrite last_snoc. Qed.

(** *** The branches of the dispatch *)

Implicit Types (tc : ToolCall) (l : Locals) (g : rng).
Implicit Types (o : list string) (p : bool).

Lemma modifiers_text_list ms :
  modifiers_text (VList ms) =
  match ms with [] => "no modifiers" | _ :: _ => join ", " ms end.
Proof. now destruct ms. Qed.

Lemma dispatch_add tc item o p g :
  is_add tc item →
  dispatch tc o p g =
  Ok ("Order updated: " +:+ join ", " (o ++ [line_item item]) +:+ ".",
      o ++ [line_item item], p, g).
Proof.
  intros (Hn & Hd & Hm). unfold dispatch, bind, lift, getitem.
  rewrite Hn, Hd, Hm. cbn [String.eqb Ascii.eqb Bool.eqb].
  unfold line_item. now rewrite modifiers_text_list.
Qed.

Lemma dispatch_confirm tc o p g :
  tc_name tc = "confirm_order" →
  dispatch tc o p g =
  Ok ("Your order is: " +:+ join ", " o +:+ ". Is this correct?", o, p, g).
Proof. intros Hn. unfold dispatch. now rewrite Hn. Qed.

Lemma dispatch_clear tc o p g :
  tc_name tc = "clear_order" →
  dispatch tc o p g = Ok ("Order cleared.", [], p, g).
Proof. intros Hn. unfold dispatch. now rewrite Hn. Qed.

Lemma dispatch_place tc o p g :
  tc_name tc = "place_order" →
  dispatch tc o p g =
  Ok ("Order placed! ETA: " +:+ pretty (randint 1 5 g).1 +:+ " minutes.",
      o, true, (randint 1 5 g).2).
Proof.
  intros Hn. unfold dispatch, bind, draw. rewrite Hn.
  cbn [String.eqb Ascii.eqb Bool.eqb]. now destruct (randint 1 5 g).
Qed.

Lemma dispatch_else tc o p g :
  tc_name tc ∉ handled →
  dispatch tc o p g = Ok ("Unrecognized action.", o, p, g).
Proof.
  unfold handled. rewrite !not_elem_of_cons. intros (H1 & H2 & H3 & H4 & _).
  unfold dispatch.
  apply String.eqb_neq in H1, H2, H3, H4. now rewrite H1, H2, H3, H4.
Qed.

(** Case analysis on the name of a call, as the chain performs it. *)
Lemma name_cases tc :
  tc_name tc = "add_to_order" ∨ tc_name tc = "confirm_order" ∨
  tc_name tc = "clear_order" ∨ tc_name tc = "place_order" ∨
  tc_name tc ∉ handled.
Proof.
  destruct (decide (tc_name tc ∈ handled)) as [Hin|Hout]; [|tauto].
  unfold handled in Hin. rewrite !elem_of_cons in Hin.
  rewrite elem_of_nil in Hin. tauto.
Qed.

Lemma named_eq n tc : tc_name tc = n → named n tc = true.
Proof. intros <-. apply String.eqb_refl. Qed.

Lemma named_ne n tc : tc_name tc ≠ n → named n tc = false.
Proof. intros Hn. now apply String.eqb_neq. Qed.

(** What one tool call does to the flag, whenever it returns. *)
Lemma dispatch_flag tc o p g r o' p' g' :
  dispatch tc o p g = Ok (r, o', p', g') →
  p' = p || named "place_order" tc.
Proof.
  destruct (name_cases tc) as [Hn|[Hn|[Hn|[Hn|Hn]]]].
  - unfold dispatch, bind, lift, getitem, named. rewrite Hn.
    cbn [String.eqb Ascii.eqb Bool.eqb].
    destruct (tc_args tc !! "drink"); [|discriminate].
    destruct (tc_args tc !! "modifiers"); [|discriminate].
    unfold ret. intros [= _ _ <- _]. now rewrite orb_false_r.
  - rewrite dispatch_confirm by done. unfold named. rewrite Hn.
    intros [= _ _ <- _]. now rewrite orb_false_r.
  - rewrite dispatch_clear by done. unfold named. rewrite Hn.
    intros [= _ _ <- _]. now rewrite orb_false_r.
  - rewrite dispatch_place by done. rewrite named_eq by done.
    intros [= _ _ <- _]. now rewrite orb_true_r.
  - rewrite dispatch_else by done. intros [= _ _ <- _].
    rewrite named_ne; [now rewrite orb_false_r|].
    intros E. apply Hn. rewrite E. unfold handled.
    rewrite !elem_of_cons. tauto.
Qed.

(** A call with its arguments is processed without an exception. *)
Lemma dispatch_returns tc o p g :
  has_args tc = true → ∃ r o' p' g', dispatch tc o p g = Ok (r, o', p', g').
Proof.
  intros Hargs.
  destruct (name_cases tc) as [Hn|[Hn|[Hn|[Hn|Hn]]]].
  - unfold has_args in Hargs. rewrite Hn in Hargs.
    cbn [String.eqb Ascii.eqb Bool.eqb] in Hargs.
    apply andb_true_iff in Hargs as [Hd Hm].
    apply bool_decide_eq_true in Hd as [d Hd].
    apply bool_decide_eq_true in Hm as [m Hm].
    unfold dispatch, bind, lift, getitem. rewrite Hn, Hd, Hm.
    cbn [String.eqb Ascii.eqb Bool.eqb]. unfold ret. eauto.
  - rewrite dispatch_confirm by done. eauto.
  - rewrite dispatch_clear by done. eauto.
  - rewrite dispatch_place by done. eauto.
  - rewrite dispatch_else by done. eauto.
Qed.

(** *** The loop *)

Lemma loop_body_ok tc l g r o p g' :
  dispatch tc (l_order l) (l_order_placed l) g = Ok (r, o, p, g') →
  loop_body tc l g =
  Ok ({| l_order := o;
         l_outbound_msgs :=
           l_outbound_msgs l ++ [ToolMessage r (tc_name tc) (tc_id tc)];
         l_order_placed := p |}, g').
Proof. intros H. unfold loop_body, bind. now rewrite H. Qed.

Lemma loop_body_inv tc l g l' g' :
  loop_body tc l g = Ok (l', g') →
  ∃ r, dispatch tc (l_order l) (l_order_placed l) g =
         Ok (r, l_order l', l_order_placed l', g') ∧
       l_outbound_msgs l' =
         l_outbound_msgs l ++ [ToolMessage r (tc_name tc) (tc_id tc)].
Proof.
  unfold loop_body, bind.
  destruct (dispatch tc (l_order l) (l_order_placed l) g)
    as [[[[r o] p] g1]|e]; [|discriminate].
  unfold ret. intros [= <- <-]. now exists r.
Qed.

Lemma loop_returns calls l g :
  forallb has_args calls = true →
  ∃ l' g', for_each loop_body calls l g = Ok (l', g').
Proof.
  revert l g. induction calls as [|tc calls IH]; intros l g Hargs.
  - now exists l, g.
  - cbn [forallb] in Hargs. apply andb_true_iff in Hargs as [Htc Hargs].
    destruct (dispatch_returns tc (l_order l) (l_order_placed l) g Htc)
      as (r & o & p & g1 & Hd).
    cbn [for_each]. rewrite (bind_ok _ _ _ _ _ (loop_body_ok _ _ _ _ _ _ _ Hd)).
    now apply IH.
Qed.

Lemma loop_flag calls l g l' g' :
  for_each loop_body calls l g = Ok (l', g') →
  l_order_placed l' = l_order_placed l || existsb (named "place_order") calls.
Proof.
  revert l g. induction calls as [|tc calls IH]; intros l g.
  - unfold for_each, ret. intros [= <- _]. now rewrite orb_false_r.
  - cbn [for_each existsb]. intros H.
    apply bind_inv in H as (l1 & g1 & Hbody & Hrest).
    apply loop_body_inv in Hbody as (r & Hd & _).
    apply dispatch_flag in Hd. rewrite (IH _ _ Hrest), Hd.
    now rewrite orb_assoc.
Qed.


(** *** The node *)

Lemma order_node_unfold state content calls g :
  last (messages state) = Some (AIMessage content calls) →
  order_node state g =
  match for_each loop_body calls
          {| l_order := default [] (order state); l_outbound_msgs := [];
             l_order_placed := false |} g with
  | Ok (l, g') =>
      Ok ({| messages := l_outbound_msgs l; order := Some (l_order l);
             finished := l_order_placed l |}, g')
  | Raise e => Raise e
  end.
Proof.
  intros Hlast. unfold order_node, bind, lift, last_item. rewrite Hlast.
  cbn [get_tool_calls]. reflexivity.
Qed.

Lemma dispatch_raises tc o p g e :
  dispatch tc o p g = Raise e → e = KeyError "drink" ∨ e = KeyError "modifiers".
Proof.
  destruct (name_cases tc) as [Hn|[Hn|[Hn|[Hn|Hn]]]].
  - unfold dispatch, bind, lift, getitem. rewrite Hn.
    cbn [String.eqb Ascii.eqb Bool.eqb].
    destruct (tc_args tc !! "drink"); [|intros [= <-]; now left].
    destruct (tc_args tc !! "modifiers"); [discriminate|].
    intros [= <-]. now right.
  - now rewrite dispatch_confirm.
  - now rewrite dispatch_clear.
  - now rewrite dispatch_place.
  - now rewrite dispatch_else.
Qed.

Lemma loop_raises calls l g e :
  for_each loop_body calls l g = Raise e →
  e = KeyError "drink" ∨ e = KeyError "modifiers".
Proof.
  revert l g. induction calls as [|tc calls IH]; intros l g; [discriminate|].
  cbn [for_each]. unfold bind at 1.
  destruct (loop_body tc l g) as [[l1 g1]|e1] eqn:Hbody; [apply IH|].
  intros [= <-]. revert Hbody. unfold loop_body, bind.
  destruct (dispatch tc (l_order l) (l_order_placed l) g)
    as [[[[r o] p] g1]|e2] eqn:Hd; [discriminate|].
  intros [= <-]. exact (dispatch_raises _ _ _ _ _ Hd).
Qed.

(** The exceptions [order_node] can raise. *)
Lemma order_node_raises state g e :
  order_node state g = Raise e →
  e = IndexError ∨ e = AttributeError "tool_calls" ∨
  e = KeyError "drink" ∨ e = KeyError "modifiers".
Proof.
  unfold order_node, bind at 1, lift at 1, last_item.
  destruct (last (messages state)) as [msg|]; [|intros [= <-]; now left].
  unfold bind at 1, lift, get_tool_calls.
  destruct msg as [c|c calls|c n i]; try (intros [= <-]; right; now left).
  unfold bind.
  destruct (for_each loop_body calls _ g) as [[l g']|e'] eqn:Hloop;
    [discriminate|].
  intros [= <-]. right; right. exact (loop_raises _ _ _ _ Hloop).
Qed.

Lemma order_node_returns state content calls g :
  last (messages state) = Some (AIMessage content calls) →
  forallb has_args calls = true →
  ∃ l g',
    for_each loop_body calls
      {| l_order := default [] (order state); l_outbound_msgs := [];
         l_order_placed := false |} g = Ok (l, g') ∧
    order_node state g =
      Ok ({| messages := l_outbound_msgs l; order := Some (l_order l);
             finished := l_order_placed l |}, g').
Proof.
  intros Hlast Hargs.
  destruct (loop_returns calls
    {| l_order := default [] (order state); l_outbound_msgs := [];
       l_order_placed := false |} g Hargs) as (l & g' & Hloop).
  exists l, g'. split; [exact Hloop|].
  rewrite (order_node_unfold _ _ _ _ Hlast). now rewrite Hloop.
Qed.

Lemma dispatch_ok_has_args tc o p g r :
  dispatch tc o p g = Ok r → has_args tc = true.
Proof.
  unfold dispatch, has_args, bind, lift, getitem.
  destruct (String.eqb (tc_name tc) "add_to_order"); [|reflexivity].
  destruct (tc_args tc !! "drink"); [|discriminate].
  destruct (tc_args tc !! "modifiers"); [|discriminate].
  intros _. apply andb_true_iff. split; apply bool_decide_eq_true; eauto.
Qed.

Lemma loop_ok_has_args calls l g l' g' :
  for_each loop_body calls l g = Ok (l', g') → forallb has_args calls = true.
Proof.
  revert l g. induction calls as [|tc calls IH]; intros l g; [reflexivity|].
  cbn [for_each forallb]. intros H.
  apply bind_inv in H as (l1 & g1 & Hbody & Hrest).
  apply loop_body_inv in Hbody as (r & Hd & _).
  rewrite (dispatch_ok_has_args _ _ _ _ _ Hd). exact (IH _ _ Hrest).
Qed.

(** X1. On requests whose arguments are strings or lists of strings,
    the node returns exactly on the batches whose [add_to_order]
    requests carry both arguments; on the others it raises. *)
Lemma order_node_returns_iff state content calls g :
  last (messages state) = Some (AIMessage content calls) →
  (∃ update g', order_node state g = Ok (update, g')) ↔
  forallb has_args calls = true.
Proof.
  intros Hlast. split.
  - intros (update & g' & Hnode).
    rewrite (order_node_unfold _ _ _ _ Hlast) in Hnode.
    destruct (for_each loop_body calls _ g) as [[l g1]|e] eqn:Hloop;
      [|discriminate].
    exact (loop_ok_has_args _ _ _ _ _ Hloop).
  - intros Hargs.
    destruct (order_node_returns state content calls g Hlast Hargs)
      as (l & g' & _ & Hnode).
    eauto.
Qed.

Lemma existsb_named n calls :
  existsb (named n) calls = true ↔ ∃ tc, tc ∈ calls ∧ tc_name tc = n.
Proof.
  rewrite existsb_exists. split; intros (tc & Hin & Hn); exists tc.
  - split; [now apply list_elem_of_In|]. now apply String.eqb_eq.
  - split; [now apply list_elem_of_In|]. now apply String.eqb_eq.
Qed.

(** *** Runs of add_to_order requests *)

Lemma loop_adds calls items l g :
  Forall2 is_add calls items →
  for_each loop_body calls l g =
  Ok ({| l_order := l_order l ++ (line_item <$> items);
         l_outbound_msgs :=
           l_outbound_msgs l ++ add_replies (l_order l) calls items;
         l_order_placed := l_order_placed l |}, g).
Proof.
  intros Hadd. revert l. induction Hadd as [|tc item calls items Htc _ IH]; intros l.
  - cbn. rewrite !app_nil_r. now destruct l.
  - cbn [for_each].
    rewrite (bind_ok _ _ _ _ _
      (loop_body_ok _ _ _ _ _ _ _ (dispatch_add tc item _ _ g Htc))).
    rewrite IH. cbn [l_order l_outbound_msgs l_order_placed add_replies fmap list_fmap].
    now rewrite <- !app_assoc.
Qed.

Lemma add_replies_lookup calls items o i tc :
  Forall2 is_add calls items →
  calls !! i = Some tc →
  add_replies o calls items !! i =
  Some (ToolMessage
          ("Order updated: " +:+
           join ", " (o ++ take (S i) (line_item <$> items)) +:+ ".")
          (tc_name tc) (tc_id tc)).
Proof.
  intros Hadd. revert o i.
  induction Hadd as [|tc0 item calls items _ _ IH]; intros o i; [done|].
  destruct i as [|i]; cbn.
  - intros [= ->]. reflexivity.
  - intros Hi. rewrite (IH _ _ Hi). now rewrite <- app_assoc.
Qed.

(** *** Rounds of the graph *)

Lemma round_ai content calls state g :
  round (AIMessage content calls) state g =
  ordering_node (chatbot_node (AIMessage content calls) state) g.
Proof.
  unfold round, bind at 1, lift, route. cbn [chatbot_node messages].
  now rewrite last_item_snoc.
Qed.

Lemma round_returns reply state g :
  valid_reply reply = true → ∃ state' g', round reply state g = Ok (state', g').
Proof.
  intros Hvalid. destruct reply as [c|c calls|c n i].
  - unfold round, bind, lift, route. cbn [chatbot_node messages].
    rewrite last_item_snoc. cbn. unfold ret. eauto.
  - rewrite round_ai. unfold ordering_node.
    destruct (order_node_returns (chatbot_node (AIMessage c calls) state) c calls g)
      as (l & g' & _ & Hnode); [apply last_snoc|exact Hvalid|].
    rewrite (bind_ok _ _ _ _ _ Hnode). unfold ret. eauto.
  - unfold round, bind, lift, route. cbn [chatbot_node messages].
    rewrite last_item_snoc. cbn. unfold ret. eauto.
Qed.

Lemma rounds_return replies state g :
  forallb valid_reply replies = true →
  ∃ state' g', rounds replies state g = Ok (state', g').
Proof.
  revert state g. induction replies as [|reply replies IH]; intros state g Hvalid.
  - now exists state, g.
  - cbn [forallb] in Hvalid. apply andb_true_iff in Hvalid as [Hr Hvalid].
    destruct (round_returns reply state g Hr) as (s1 & g1 & Hround).
    unfold rounds. cbn [for_each]. rewrite (bind_ok _ _ _ _ _ Hround).
    now apply IH.
Qed.

(** *** Requests that only reply *)

(** [outbound_msgs] is only appended to: the rest of the loop does not
    depend on what it holds. *)
Lemma loop_frame calls o out p g l' g' out2 :
  for_each loop_body calls
    {| l_order := o; l_outbound_msgs := out; l_order_placed := p |} g = Ok (l', g') →
  ∃ new,
    l_outbound_msgs l' = out ++ new ∧ length new = length calls ∧
    for_each loop_body calls
      {| l_order := o; l_outbound_msgs := out2; l_order_placed := p |} g =
    Ok ({| l_order := l_order l'; l_outbound_msgs := out2 ++ new;
           l_order_placed := l_order_placed l' |}, g').
Proof.
  revert o out p g out2. induction calls as [|tc calls IH]; intros o out p g out2.
  - unfold for_each, ret. intros [= <- <-]. exists []. cbn.
    now rewrite !app_nil_r.
  - cbn [for_each]. intros H.
    apply bind_inv in H as ([o1 out1 p1] & g1 & Hbody & Hrest).
    apply loop_body_inv in Hbody as (r & Hd & Hout).
    cbn [l_order l_outbound_msgs l_order_placed] in Hd, Hout. subst out1.
    destruct (IH _ _ _ _ (out2 ++ [ToolMessage r (tc_name tc) (tc_id tc)]) Hrest)
      as (new & Hnew & Hlen & Hrun).
    exists (ToolMessage r (tc_name tc) (tc_id tc) :: new).
    split; [now rewrite Hnew, <- app_assoc|].
    split; [cbn; now rewrite Hlen|].
    rewrite (bind_ok _ _ _ _ _ (loop_body_ok tc
      {| l_order := o; l_outbound_msgs := out2; l_order_placed := p |} _ _ _ _ _ Hd)).
    cbn [l_outbound_msgs]. rewrite Hrun. now rewrite <- app_assoc.
Qed.

(** Taking such a request out of a batch changes nothing in what the
    node returns, except that its one reply is missing. *)
Lemma order_node_skip tc reply state content pre post g update g' :
  only_replies tc reply →
  order_node (chatbot_node (AIMessage content (pre ++ tc :: post)) state) g =
    Ok (update, g') →
  ∃ update' o,
    order_node (chatbot_node (AIMessage content (pre ++ post)) state) g =
      Ok (update', g') ∧
    order update = order update' ∧
    finished update = finished update' ∧
    messages update =
      take (length pre) (messages update') ++
      ToolMessage (reply o) (tc_name tc) (tc_id tc) ::
      drop (length pre) (messages update').
Proof.
  intros Hinert.
  rewrite (order_node_unfold _ content (pre ++ tc :: post)) by apply last_snoc.
  rewrite (order_node_unfold _ content (pre ++ post)) by apply last_snoc.
  cbn [chatbot_node order].
  set (l0 := {| l_order := default [] (order state); l_outbound_msgs := [];
                l_order_placed := false |}).
  destruct (for_each loop_body (pre ++ tc :: post) l0 g) as [[l g1]|e] eqn:Hrun;
    [|discriminate].
  intros [= <- <-].
  rewrite for_each_app in Hrun.
  apply bind_inv in Hrun as ([oa outa pa] & ga & Hpre & Hrun).
  cbn [for_each] in Hrun.
  rewrite (bind_ok _ _ _ _ _ (Hinert _ ga)) in Hrun.
  cbn [l_order l_outbound_msgs l_order_placed] in Hrun.
  destruct (loop_frame _ _ _ _ _ _ _ [] Hpre) as (newa & Houta & Hlena & _).
  cbn in Houta. subst outa.
  destruct (loop_frame _ _ _ _ _ _ _ newa Hrun) as (new & Hout & _ & Hpost).
  rewrite for_each_app, (bind_ok _ _ _ _ _ Hpre), Hpost.
  eexists _, oa. split; [reflexivity|]. cbn [order finished messages].
  split; [reflexivity|]. split; [reflexivity|].
  rewrite Hout, <- Hlena. cbn [l_outbound_msgs].
  rewrite take_app_length, drop_app_length.
  now rewrite <- app_assoc.
Qed.

Lemma confirm_only_replies tc :
  tc_name tc = "confirm_order" →
  only_replies tc (λ o, "Your order is: " +:+ join ", " o +:+ ". Is this correct?").
Proof.
  intros Hn l g. apply loop_body_ok. now apply dispatch_confirm.
Qed.

Lemma unhandled_only_replies tc :
  tc_name tc ∉ handled → only_replies tc (λ _, "Unrecognized action.").
Proof.
  intros Hn l g. apply loop_body_ok. now apply dispatch_else.
Qed.

Lemma catalog_handled n : n ∉ catalog → n ∉ handled.
Proof.
  unfold catalog, handled. rewrite !not_elem_of_cons. tauto.
Qed.

(** *** The claims about the node and the graph *)

(** C1 (as amended). The [finished] flag is not carried from one
    [order_node] step to the next: after any run of graph rounds, the
    flag is true exactly when the batch of the latest step holds a
    [place_order] request.  A flag that was true therefore stays true
    after a later step only if that step's batch places an order again. *)
Theorem finished_tracks_latest_batch replies content calls state g :
  forallb valid_reply replies = true →
  forallb has_args calls = true →
  ∃ state' g',
    rounds (replies ++ [AIMessage content calls]) state g = Ok (state', g') ∧
    finished state' = existsb (named "place_order") calls.
Proof.
  intros Hreplies Hcalls.
  destruct (rounds_return replies state g Hreplies) as (s1 & g1 & Hrun).
  unfold rounds in *. rewrite for_each_app, (bind_ok _ _ _ _ _ Hrun).
  cbn [for_each]. unfold bind at 1. rewrite round_ai. unfold ordering_node.
  destruct (order_node_returns (chatbot_node (AIMessage content calls) s1)
              content calls g1) as (l & g2 & Hloop & Hnode);
    [apply last_snoc|exact Hcalls|].
  rewrite (bind_ok _ _ _ _ _ Hnode). unfold ret.
  eexists _, g2. split; [reflexivity|].
  cbn [apply_update finished]. now rewrite (loop_flag _ _ _ _ _ Hloop).
Qed.

(** C2 (the code departs from the claim). The router tests for the
    presence of the attribute [tool_calls], not for requests in it: an
    assistant message with an empty request list is routed to the
    ordering node, and no message at all is routed to the end of the
    graph run. *)
Theorem route_empty_tool_calls_to_ordering :
  (∀ msgs content (ord : option (list string)) (fin : bool),
     route {| messages := msgs ++ [AIMessage content []];
              order := ord; finished := fin |} = Ok ordering) ∧
  (∀ state, route state ≠ Ok END).
Proof.
  split.
  - intros msgs content ord fin. unfold route. cbn [messages].
    now rewrite last_item_snoc.
  - intros state. unfold route.
    destruct (last_item (messages state)) as [msg|e]; [|discriminate].
    now destruct (hasattr_tool_calls msg).
Qed.

(** C3. A batch of [add_to_order] requests appends one line item per
    request, in request order: the drink, then its modifiers joined by
    commas in parentheses, or "no modifiers".  The order grows by the
    number of requests, and the reply to each request lists, joined by
    commas, exactly the order as it is after that request. *)
Theorem add_to_order_appends_line_items state content calls items g :
  last (messages state) = Some (AIMessage content calls) →
  Forall2 is_add calls items →
  let before := default [] (order state) in
  let after := before ++ (line_item <$> items) in
  order_node state g =
    Ok ({| messages := add_replies before calls items;
           order := Some after;
           finished := false |}, g) ∧
  length after = (length before + length calls)%nat ∧
  ∀ i tc,
    calls !! i = Some tc →
    add_replies before calls items !! i =
    Some (ToolMessage
            ("Order updated: " +:+
             join ", " (before ++ take (S i) (line_item <$> items)) +:+ ".")
            (tc_name tc) (tc_id tc)).
Proof.
  intros Hlast Hadd before after. split; [|split].
  - rewrite (order_node_unfold _ _ _ _ Hlast).
    now rewrite (loop_adds _ _ _ _ Hadd).
  - unfold after. rewrite length_app, length_fmap.
    now rewrite (Forall2_length _ _ _ Hadd).
  - intros i tc Hi. now apply add_replies_lookup.
Qed.

(** C4. A [place_order] request sets the flag, and both estimates lie
    between 1 and 5: the value the tool function returns and the number
    written into the node's reply. *)
Theorem place_order_sets_finished_eta_in_range tc :
  tc_name tc = "place_order" →
  (∀ order g, ∃ eta g',
     place_order order g = Ok (eta, g') ∧ (1 ≤ eta ≤ 5)%Z) ∧
  (∀ l g, ∃ eta g',
     (1 ≤ eta ≤ 5)%Z ∧
     loop_body tc l g =
     Ok ({| l_order := l_order l;
            l_outbound_msgs :=
              l_outbound_msgs l ++
              [ToolMessage ("Order placed! ETA: " +:+ pretty eta +:+ " minutes.")
                 (tc_name tc) (tc_id tc)];
            l_order_placed := true |}, g')) ∧
  (∀ state content pre post g update g',
     order_node (chatbot_node (AIMessage content (pre ++ tc :: post)) state) g =
       Ok (update, g') →
     finished update = true).
Proof.
  intros Hn. split; [|split].
  - intros o g. exists (randint 1 5 g).1, (randint 1 5 g).2. split.
    + unfold place_order, draw. now destruct (randint 1 5 g).
    + now apply randint_range.
  - intros l g. exists (randint 1 5 g).1, (randint 1 5 g).2. split.
    + now apply randint_range.
    + apply loop_body_ok. now apply dispatch_place.
  - intros state content pre post g update g'.
    rewrite (order_node_unfold _ content (pre ++ tc :: post)) by apply last_snoc.
    destruct (for_each loop_body (pre ++ tc :: post) _ g) as [[l g1]|e] eqn:Hloop;
      [|discriminate].
    intros [= <- <-]. cbn [finished].
    rewrite (loop_flag _ _ _ _ _ Hloop). cbn [l_order_placed orb].
    apply existsb_named. exists tc. split; [|exact Hn].
    apply elem_of_app. right. apply elem_of_cons. now left.
Qed.

(** C5 (as amended). A request whose name is not in the catalog
    leaves the order and the messages there are as they were, and adds
    the fixed reply "Unrecognized action.".  It neither sets nor clears
    the flag of the step, but the flag is not carried over from the
    state: a step made of such a request returns [finished = false],
    whatever the flag was, and in a larger batch the flag and the order
    returned are those of the batch without the request. *)
Theorem unregistered_tool_only_replies tc :
  tc_name tc ∉ catalog →
  (∀ state content g,
     ordering_node (chatbot_node (AIMessage content [tc]) state) g =
     Ok ({| messages :=
              messages state ++
              [AIMessage content [tc];
               ToolMessage "Unrecognized action." (tc_name tc) (tc_id tc)];
            order := Some (default [] (order state));
            finished := false |}, g)) ∧
  (∀ l g,
     loop_body tc l g =
     Ok ({| l_order := l_order l;
            l_outbound_msgs :=
              l_outbound_msgs l ++
              [ToolMessage "Unrecognized action." (tc_name tc) (tc_id tc)];
            l_order_placed := l_order_placed l |}, g)) ∧
  (∀ state content pre post g update g',
     order_node (chatbot_node (AIMessage content (pre ++ tc :: post)) state) g =
       Ok (update, g') →
     ∃ update',
       order_node (chatbot_node (AIMessage content (pre ++ post)) state) g =
         Ok (update', g') ∧
       order update = order update' ∧
       finished update = finished update' ∧
       messages update =
         take (length pre) (messages update') ++
         ToolMessage "Unrecognized action." (tc_name tc) (tc_id tc) ::
         drop (length pre) (messages update')).
Proof.
  intros Hn. apply catalog_handled in Hn.
  pose proof (unhandled_only_replies tc Hn) as Hinert. split; [|split].
  - intros state content g. unfold ordering_node.
    rewrite (bind_ok _ _ g
      {| messages := [ToolMessage "Unrecognized action." (tc_name tc) (tc_id tc)];
         order := Some (default [] (order state));
         finished := false |} g).
    + unfold ret, apply_update. cbn [chatbot_node messages order finished].
      now rewrite <- app_assoc.
    + rewrite (order_node_unfold _ content [tc]) by apply last_snoc.
      cbn [for_each]. now rewrite (bind_ok _ _ _ _ _ (Hinert _ g)).
  - exact Hinert.
  - intros state content pre post g update g' Hnode.
    destruct (order_node_skip _ _ _ _ _ _ _ _ _ Hinert Hnode)
      as (update' & o & H1 & H2 & H3 & H4).
    now exists update'.
Qed.

(** C6. The flag an [order_node] step returns is true exactly when its
    batch holds a [place_order] request, whatever the flag was before
    the step; a batch without one returns false. *)
Theorem finished_iff_batch_places_order state content calls g :
  last (messages state) = Some (AIMessage content calls) →
  forallb has_args calls = true →
  ∃ update g',
    order_node state g = Ok (update, g') ∧
    (finished update = true ↔ ∃ tc, tc ∈ calls ∧ tc_name tc = "place_order") ∧
    ((∀ tc, tc ∈ calls → tc_name tc ≠ "place_order") → finished update = false).
Proof.
  intros Hlast Hargs.
  destruct (order_node_returns state content calls g Hlast Hargs)
    as (l & g' & Hloop & Hnode).
  eexists _, g'. split; [exact Hnode|]. cbn [finished].
  rewrite (loop_flag _ _ _ _ _ Hloop). cbn [l_order_placed orb].
  split; [apply existsb_named|].
  intros Hnone. apply not_true_is_false. rewrite existsb_named.
  intros (tc & Hin & Hn). exact (Hnone tc Hin Hn).
Qed.

(** C7 (as amended). A [confirm_order] request leaves the order as it
    is, and its reply restates the order the node holds, joined by
    commas, and asks whether it is correct.  It neither sets nor clears
    the flag of the step, but the flag is not carried over from the
    state: a step made of a [confirm_order] request returns
    [finished = false], whatever the flag was, and in a larger batch the
    flag and the order returned are those of the batch without the
    request. *)
Theorem confirm_order_restates_order tc :
  tc_name tc = "confirm_order" →
  (∀ state content g,
     ordering_node (chatbot_node (AIMessage content [tc]) state) g =
     Ok ({| messages :=
              messages state ++
              [AIMessage content [tc];
               ToolMessage
                 ("Your order is: " +:+ join ", " (default [] (order state)) +:+
                  ". Is this correct?") (tc_name tc) (tc_id tc)];
            order := Some (default [] (order state));
            finished := false |}, g)) ∧
  (∀ l g,
     loop_body tc l g =
     Ok ({| l_order := l_order l;
            l_outbound_msgs :=
              l_outbound_msgs l ++
              [ToolMessage
                 ("Your order is: " +:+ join ", " (l_order l) +:+ ". Is this correct?")
                 (tc_name tc) (tc_id tc)];
            l_order_placed := l_order_placed l |}, g)) ∧
  (∀ state content pre post g update g',
     order_node (chatbot_node (AIMessage content (pre ++ tc :: post)) state) g =
       Ok (update, g') →
     ∃ update',
       order_node (chatbot_node (AIMessage content (pre ++ post)) state) g =
         Ok (update', g') ∧
       order update = order update' ∧
       finished update = finished update').
Proof.
  intros Hn. pose proof (confirm_only_replies tc Hn) as Hinert.
  split; [|split].
  - intros state content g. unfold ordering_node.
    rewrite (bind_ok _ _ g
      {| messages :=
           [ToolMessage
              ("Your order is: " +:+ join ", " (default [] (order state)) +:+
               ". Is this correct?") (tc_name tc) (tc_id tc)];
         order := Some (default [] (order state));
         finished := false |} g).
    + unfold ret, apply_update. cbn [chatbot_node messages order finished].
      now rewrite <- app_assoc.
    + rewrite (order_node_unfold _ content [tc]) by apply last_snoc.
      cbn [for_each]. now rewrite (bind_ok _ _ _ _ _ (Hinert _ g)).
  - exact Hinert.
  - intros state content pre post g update g' Hnode.
    destruct (order_node_skip _ _ _ _ _ _ _ _ _ Hinert Hnode)
      as (update' & o & H1 & H2 & H3 & H4).
    now exists update'.
Qed.

(** C8. [clear_order] leaves an empty order whatever the order held,
    and doing it twice gives the same empty order and the same reply
    text as doing it once. *)
Theorem clear_order_empties_idempotent tc1 tc2 :
  tc_name tc1 = "clear_order" →
  tc_name tc2 = "clear_order" →
  (∀ l g,
     let once :=
       {| l_order := [];
          l_outbound_msgs :=
            l_outbound_msgs l ++
            [ToolMessage "Order cleared." (tc_name tc1) (tc_id tc1)];
          l_order_placed := l_order_placed l |} in
     let twice :=
       {| l_order := [];
          l_outbound_msgs :=
            l_outbound_msgs once ++
            [ToolMessage "Order cleared." (tc_name tc2) (tc_id tc2)];
          l_order_placed := l_order_placed l |} in
     loop_body tc1 l g = Ok (once, g) ∧
     for_each loop_body [tc1; tc2] l g = Ok (twice, g) ∧
     l_order twice = l_order once) ∧
  (∀ state content g,
     ∃ once twice,
       order_node (chatbot_node (AIMessage content [tc1]) state) g = Ok (once, g) ∧
       order_node (chatbot_node (AIMessage content [tc1; tc2]) state) g =
         Ok (twice, g) ∧
       order once = Some [] ∧
       order twice = order once ∧
       messages once = [ToolMessage "Order cleared." (tc_name tc1) (tc_id tc1)] ∧
       messages twice =
         messages once ++ [ToolMessage "Order cleared." (tc_name tc2) (tc_id tc2)]) ∧
  clear_order = "Order cleared.".
Proof.
  intros Hn1 Hn2.
  assert (Hclear : ∀ tc l g, tc_name tc = "clear_order" →
            loop_body tc l g =
            Ok ({| l_order := [];
                   l_outbound_msgs :=
                     l_outbound_msgs l ++
                     [ToolMessage "Order cleared." (tc_name tc) (tc_id tc)];
                   l_order_placed := l_order_placed l |}, g)).
  { intros tc l g Hn. apply loop_body_ok. now apply dispatch_clear. }
  split; [|split; [|reflexivity]].
  - intros l g once twice. split; [now apply Hclear|]. split; [|reflexivity].
    cbn [for_each]. rewrite (bind_ok _ _ _ _ _ (Hclear tc1 l g Hn1)).
    now rewrite (bind_ok _ _ _ _ _ (Hclear tc2 _ g Hn2)).
  - intros state content g.
    rewrite (order_node_unfold _ content [tc1]) by apply last_snoc.
    rewrite (order_node_unfold _ content [tc1; tc2]) by apply last_snoc.
    cbn [for_each]. rewrite !(bind_ok _ _ _ _ _ (Hclear tc1 _ g Hn1)).
    rewrite (bind_ok _ _ _ _ _ (Hclear tc2 _ g Hn2)).
    eexists _, _. split; [reflexivity|]. split; [reflexivity|].
    cbn. repeat split.
Qed.


(** C10. Without a credential in the configuration (the variable unset
    or empty once the [.env] file is loaded) the script stops with the
    error of the start-up check before anything below the check runs;
    with a credential the check passes and the rest of the script runs.
    The code that serves requests never raises that error. *)
Theorem missing_credential_fails_at_startup dotenv environ :
  let configured := load_dotenv dotenv environ !! "GOOGLE_API_KEY" in
  (configured = None ∨ configured = Some "" →
   ∀ A (rest : gmap string string → result A),
     script dotenv environ rest = Raise (ValueError key_not_found)) ∧
  (∀ key, configured = Some key → key ≠ "" →
   ∀ A (rest : gmap string string → result A),
     script dotenv environ rest =
     rest (<["GOOGLE_API_KEY" := key]> (load_dotenv dotenv environ))) ∧
  (∀ state g msg,
     order_node state g ≠ Raise (ValueError msg) ∧
     route state ≠ Raise (ValueError msg)).
Proof.
  intros configured. split; [|split].
  - intros Hmissing A rest. unfold script, startup, getenv. fold configured.
    now destruct Hmissing as [-> | ->].
  - intros key Hkey Hne A rest. unfold script, startup, getenv. fold configured.
    rewrite Hkey. apply String.eqb_neq in Hne. now rewrite Hne.
  - intros state g msg. split.
    + intros Hraise. apply order_node_raises in Hraise.
      destruct Hraise as [?|[?|[?|?]]]; discriminate.
    + unfold route, last_item. destruct (last (messages state)); discriminate.
Qed.

(** *** Further properties of the node *)

(** What one tool call does to the order and to the generator. *)
Lemma dispatch_order_kept tc o p g r o' p' g' :
  dispatch tc o p g = Ok (r, o', p', g') →
  tc_name tc ≠ "add_to_order" → tc_name tc ≠ "clear_order" → o' = o.
Proof.
  intros Hd Hadd Hclear.
  destruct (name_cases tc) as [Hn|[Hn|[Hn|[Hn|Hn]]]]; try contradiction.
  - rewrite dispatch_confirm in Hd by done. now injection Hd as _ <- _ _.
  - rewrite dispatch_place in Hd by done. now injection Hd as _ <- _ _.
  - rewrite dispatch_else in Hd by done. now injection Hd as _ <- _ _.
Qed.

Lemma dispatch_generator tc o p g r o' p' g' :
  dispatch tc o p g = Ok (r, o', p', g') →
  g' = if named "place_order" tc then (randint 1 5 g).2 else g.
Proof.
  destruct (name_cases tc) as [Hn|[Hn|[Hn|[Hn|Hn]]]].
  - unfold dispatch, bind, lift, getitem, named. rewrite Hn.
    cbn [String.eqb Ascii.eqb Bool.eqb].
    destruct (tc_args tc !! "drink"); [|discriminate].
    destruct (tc_args tc !! "modifiers"); [|discriminate].
    unfold ret. now intros [= _ _ _ <-].
  - rewrite dispatch_confirm by done. unfold named. rewrite Hn.
    now intros [= _ _ _ <-].
  - rewrite dispatch_clear by done. unfold named. rewrite Hn.
    now intros [= _ _ _ <-].
  - rewrite dispatch_place by done. rewrite named_eq by done.
    now intros [= _ _ _ <-].
  - rewrite dispatch_else by done. intros [= _ _ _ <-].
    rewrite named_ne; [reflexivity|].
    intros E. apply Hn. rewrite E. unfold handled.
    rewrite !elem_of_cons. tauto.
Qed.

Lemma loop_order_kept calls l g l' g' :
  for_each loop_body calls l g = Ok (l', g') →
  (∀ tc, tc ∈ calls → tc_name tc ≠ "add_to_order" ∧ tc_name tc ≠ "clear_order") →
  l_order l' = l_order l.
Proof.
  revert l g. induction calls as [|tc calls IH]; intros l g.
  - unfold for_each, ret. now intros [= <- _].
  - cbn [for_each]. intros H Hnames.
    apply bind_inv in H as (l1 & g1 & Hbody & Hrest).
    apply loop_body_inv in Hbody as (r & Hd & _).
    destruct (Hnames tc) as [Hadd Hclear]; [apply elem_of_cons; now left|].
    rewrite (IH _ _ Hrest).
    + exact (dispatch_order_kept _ _ _ _ _ _ _ _ Hd Hadd Hclear).
    + intros tc' Hin. apply Hnames. apply elem_of_cons. now right.
Qed.

Lemma loop_generator calls l g l' g' :
  for_each loop_body calls l g = Ok (l', g') →
  g' = Nat.iter (length (List.filter (named "place_order") calls))
         (λ g, (randint 1 5 g).2) g.
Proof.
  revert l g. induction calls as [|tc calls IH]; intros l g.
  - unfold for_each, ret. now intros [= _ <-].
  - cbn [for_each List.filter]. intros H.
    apply bind_inv in H as (l1 & g1 & Hbody & Hrest).
    apply loop_body_inv in Hbody as (r & Hd & _).
    apply dispatch_generator in Hd. rewrite (IH _ _ Hrest), Hd.
    destruct (named "place_order" tc); [|reflexivity].
    cbn [length]. now rewrite Nat.iter_succ_r.
Qed.

Lemma no_add_has_args calls :
  (∀ tc, tc ∈ calls → tc_name tc ≠ "add_to_order") →
  forallb has_args calls = true.
Proof.
  intros Hnames. apply forallb_forall. intros tc Hin.
  apply list_elem_of_In, Hnames in Hin. unfold has_args.
  apply String.eqb_neq in Hin. now rewrite Hin.
Qed.

(** X2. How the node fails on requests whose arguments are strings
    or lists of strings.  Without messages it raises [IndexError], and
    so does the router.  On a last message that has no [tool_calls] it
    raises [AttributeError], where the router goes back to the chatbot.
    On the first [add_to_order] request that lacks an argument it
    raises [KeyError], for ["drink"] when the drink is missing and for
    ["modifiers"] otherwise, whatever requests follow.  It raises
    nothing else. *)
Theorem order_node_error_cases state g :
  (messages state = [] →
   order_node state g = Raise IndexError ∧ route state = Raise IndexError) ∧
  (∀ msg,
     last (messages state) = Some msg →
     hasattr_tool_calls msg = false →
     order_node state g = Raise (AttributeError "tool_calls") ∧
     route state = Ok chatbot) ∧
  (∀ content pre tc post,
     last (messages state) = Some (AIMessage content (pre ++ tc :: post)) →
     forallb has_args pre = true →
     has_args tc = false →
     order_node state g =
     Raise (KeyError match tc_args tc !! "drink" with
                     | None => "drink"
                     | Some _ => "modifiers"
                     end)) ∧
  (∀ e,
     order_node state g = Raise e →
     e = IndexError ∨ e = AttributeError "tool_calls" ∨
     e = KeyError "drink" ∨ e = KeyError "modifiers").
Proof.
  split; [|split; [|split]].
  - intros Hnil. unfold order_node, route, bind, lift, last_item.
    now rewrite Hnil.
  - intros msg Hlast Hattr. unfold order_node, route, bind, lift, last_item.
    rewrite Hlast. now destruct msg.
  - intros content pre tc post Hlast Hpre Htc.
    rewrite (order_node_unfold _ _ _ _ Hlast), for_each_app.
    destruct (loop_returns pre
      {| l_order := default [] (order state); l_outbound_msgs := [];
         l_order_placed := false |} g Hpre) as (l1 & g1 & Hrun).
    rewrite (bind_ok _ _ _ _ _ Hrun). cbn [for_each].
    unfold bind at 1, loop_body, bind at 1, dispatch.
    unfold has_args in Htc.
    destruct (String.eqb (tc_name tc) "add_to_order"); [|discriminate].
    unfold bind, lift, getitem.
    destruct (tc_args tc !! "drink") as [d|]; [|reflexivity].
    destruct (tc_args tc !! "modifiers") as [m|]; [|reflexivity].
    exfalso. apply andb_false_iff in Htc as [Hd|Hm].
    + apply bool_decide_eq_false in Hd. apply Hd. eauto.
    + apply bool_decide_eq_false in Hm. apply Hm. eauto.
  - intros e. apply order_node_raises.
Qed.

(** X3. Only [add_to_order] and [clear_order] change the order: a
    batch without them is always processed, and the order returned is
    the order the state held (the empty one when the state has no
    order). *)
Theorem order_kept_without_add_or_clear state content calls g :
  last (messages state) = Some (AIMessage content calls) →
  (∀ tc, tc ∈ calls → tc_name tc ≠ "add_to_order" ∧ tc_name tc ≠ "clear_order") →
  ∃ update g',
    order_node state g = Ok (update, g') ∧
    order update = Some (default [] (order state)).
Proof.
  intros Hlast Hnames.
  destruct (order_node_returns state content calls g Hlast)
    as (l & g' & Hloop & Hnode).
  { apply no_add_has_args. intros tc Hin. now apply Hnames. }
  eexists _, g'. split; [exact Hnode|]. cbn [order].
  now rewrite (loop_order_kept _ _ _ _ _ Hloop Hnames).
Qed.

(** X4. The node draws from the generator once for each [place_order]
    request and not otherwise: the generator it leaves behind is the one
    it found, advanced by as many draws of [randint(1, 5)] as the batch
    has [place_order] requests. *)
Theorem one_draw_per_place_order state content calls g :
  last (messages state) = Some (AIMessage content calls) →
  forallb has_args calls = true →
  ∃ update,
    order_node state g =
    Ok (update,
        Nat.iter (length (List.filter (named "place_order") calls))
          (λ g, (randint 1 5 g).2) g).
Proof.
  intros Hlast Hargs.
  destruct (order_node_returns state content calls g Hlast Hargs)
    as (l & g' & Hloop & Hnode).
  eexists. rewrite Hnode. now rewrite (loop_generator _ _ _ _ _ Hloop).
Qed.

Lemma dispatch_order_det tc o p1 g1 r1 o1 q1 h1 p2 g2 r2 o2 q2 h2 :
  dispatch tc o p1 g1 = Ok (r1, o1, q1, h1) →
  dispatch tc o p2 g2 = Ok (r2, o2, q2, h2) →
  o1 = o2.
Proof.
  destruct (name_cases tc) as [Hn|[Hn|[Hn|[Hn|Hn]]]].
  - unfold dispatch, bind, lift, getitem. rewrite Hn.
    cbn [String.eqb Ascii.eqb Bool.eqb].
    destruct (tc_args tc !! "drink"); [|discriminate].
    destruct (tc_args tc !! "modifiers"); [|discriminate].
    unfold ret. intros [= _ <- _ _] [= _ <- _ _]. reflexivity.
  - rewrite !dispatch_confirm by done. now intros [= _ <- _ _] [= _ <- _ _].
  - rewrite !dispatch_clear by done. now intros [= _ <- _ _] [= _ <- _ _].
  - rewrite !dispatch_place by done. now intros [= _ <- _ _] [= _ <- _ _].
  - rewrite !dispatch_else by done. now intros [= _ <- _ _] [= _ <- _ _].
Qed.

Lemma loop_order_det calls la ga la' ga' lb gb lb' gb' :
  for_each loop_body calls la ga = Ok (la', ga') →
  for_each loop_body calls lb gb = Ok (lb', gb') →
  l_order la = l_order lb →
  l_order la' = l_order lb'.
Proof.
  revert la ga lb gb. induction calls as [|tc calls IH]; intros la ga lb gb.
  - unfold for_each, ret. now intros [= <- _] [= <- _].
  - cbn [for_each]. intros Ha Hb Ho.
    apply bind_inv in Ha as (la1 & ga1 & Hbodya & Hresta).
    apply bind_inv in Hb as (lb1 & gb1 & Hbodyb & Hrestb).
    apply loop_body_inv in Hbodya as (ra & Hda & _).
    apply loop_body_inv in Hbodyb as (rb & Hdb & _).
    rewrite <- Ho in Hdb.
    exact (IH _ _ _ _ Hresta Hrestb (dispatch_order_det _ _ _ _ _ _ _ _ _ _ _ _ _ _ Hda Hdb)).
Qed.

Lemma loop_after_clear pre tc post l g l' g' :
  tc_name tc = "clear_order" →
  for_each loop_body (pre ++ tc :: post) l g = Ok (l', g') →
  ∃ l1 g1,
    l_order l1 = [] ∧ for_each loop_body post l1 g1 = Ok (l', g').
Proof.
  intros Hn Hrun. rewrite for_each_app in Hrun.
  apply bind_inv in Hrun as (la & ga & _ & Hrun). cbn [for_each] in Hrun.
  apply bind_inv in Hrun as (l1 & g1 & Hbody & Hrest).
  apply loop_body_inv in Hbody as (r & Hd & _).
  rewrite dispatch_clear in Hd by done. injection Hd as _ Ho _ _.
  now exists l1, g1.
Qed.

(** X5. [clear_order] forgets the past: once a batch has cleared the
    order, the order it returns is decided by the requests after the
    clearance alone.  Two batches that end alike after a [clear_order]
    return the same order, whatever their states, their generators and
    the requests before it. *)
Theorem clear_order_forgets_the_past
    tc1 tc2 state1 state2 content1 content2 pre1 pre2 post
    g1 g2 update1 update2 g1' g2' :
  tc_name tc1 = "clear_order" →
  tc_name tc2 = "clear_order" →
  order_node (chatbot_node (AIMessage content1 (pre1 ++ tc1 :: post)) state1) g1 =
    Ok (update1, g1') →
  order_node (chatbot_node (AIMessage content2 (pre2 ++ tc2 :: post)) state2) g2 =
    Ok (update2, g2') →
  order update1 = order update2.
Proof.
  intros Hn1 Hn2.
  rewrite (order_node_unfold _ content1 (pre1 ++ tc1 :: post)) by apply last_snoc.
  rewrite (order_node_unfold _ content2 (pre2 ++ tc2 :: post)) by apply last_snoc.
  destruct (for_each loop_body (pre1 ++ tc1 :: post) _ g1) as [[la ga]|e] eqn:Ha;
    [|discriminate].
  destruct (for_each loop_body (pre2 ++ tc2 :: post) _ g2) as [[lb gb]|e] eqn:Hb;
    [|discriminate].
  intros [= <- _] [= <- _]. cbn [order]. f_equal.
  apply (loop_after_clear _ _ _ _ _ _ _ Hn1) in Ha as (la1 & ga1 & Hoa & Ha).
  apply (loop_after_clear _ _ _ _ _ _ _ Hn2) in Hb as (lb1 & gb1 & Hob & Hb).
  apply (loop_order_det _ _ _ _ _ _ _ _ _ Ha Hb). now rewrite Hoa, Hob.
Qed.

Lemma loop_body_relevant tc1 tc2 l g :
  relevant tc1 = relevant tc2 → loop_body tc1 l g = loop_body tc2 l g.
Proof.
  unfold relevant, loop_body, bind, dispatch.
  destruct (String.eqb (tc_name tc1) "add_to_order") eqn:E1;
    destruct (String.eqb (tc_name tc2) "add_to_order") eqn:E2.
  - intros [= Hn Hi Hd Hm]. unfold bind, lift, getitem.
    now rewrite Hn, Hi, Hd, Hm.
  - intros [= Hn _ _ _]. rewrite Hn, E2 in E1. discriminate.
  - intros [= Hn _ _ _]. rewrite Hn, E2 in E1. discriminate.
  - intros [= Hn Hi]. now rewrite Hn, Hi.
Qed.

Lemma loop_relevant calls1 calls2 l g :
  relevant <$> calls1 = relevant <$> calls2 →
  for_each loop_body calls1 l g = for_each loop_body calls2 l g.
Proof.
  revert calls2 l g. induction calls1 as [|tc1 calls1 IH];
    intros [|tc2 calls2] l g; try discriminate; [reflexivity|].
  rewrite !fmap_cons. intros [= Htc Hrest]. cbn [for_each]. unfold bind.
  rewrite (loop_body_relevant _ _ _ _ Htc).
  destruct (loop_body tc2 l g) as [[l1 g1]|e]; [|reflexivity].
  now apply IH.
Qed.

(** X6. What the node reads.  Its result is decided by the order the
    state holds (none counting as empty), the generator, and of each
    request the name, the identifier and, for [add_to_order], the drink
    and the modifiers.  The assistant's text, the older messages, the
    flag and every other argument, such as the order passed to
    [confirm_order] and [place_order], play no part. *)
Theorem order_node_reads_only
    state1 state2 content1 content2 calls1 calls2 g :
  last (messages state1) = Some (AIMessage content1 calls1) →
  last (messages state2) = Some (AIMessage content2 calls2) →
  relevant <$> calls1 = relevant <$> calls2 →
  default [] (order state1) = default [] (order state2) →
  order_node state1 g = order_node state2 g.
Proof.
  intros Hlast1 Hlast2 Hcalls Horder.
  rewrite (order_node_unfold _ _ _ _ Hlast1), (order_node_unfold _ _ _ _ Hlast2).
  now rewrite Horder, (loop_relevant _ _ _ _ Hcalls).
Qed.

Lemma MENU_head : ∃ rest, MENU = String (ascii_of_nat 10) rest.
Proof. eexists. reflexivity. Qed.

Lemma dispatch_reply_head tc o p g r o' p' g' :
  dispatch tc o p g = Ok (r, o', p', g') →
  ∃ c rest, r = String c rest ∧ c ≠ ascii_of_nat 10.
Proof.
  destruct (name_cases tc) as [Hn|[Hn|[Hn|[Hn|Hn]]]].
  - unfold dispatch, bind, lift, getitem. rewrite Hn.
    cbn [String.eqb Ascii.eqb Bool.eqb].
    destruct (tc_args tc !! "drink"); [|discriminate].
    destruct (tc_args tc !! "modifiers"); [|discriminate].
    unfold ret. intros [= <- _ _ _]. eexists _, _. split; [reflexivity|discriminate].
  - rewrite dispatch_confirm by done. intros [= <- _ _ _].
    eexists _, _. split; [reflexivity|discriminate].
  - rewrite dispatch_clear by done. intros [= <- _ _ _].
    eexists _, _. split; [reflexivity|discriminate].
  - rewrite dispatch_place by done. intros [= <- _ _ _].
    eexists _, _. split; [reflexivity|discriminate].
  - rewrite dispatch_else by done. intros [= <- _ _ _].
    eexists _, _. split; [reflexivity|discriminate].
Qed.

Lemma loop_never_menu calls l g l' g' :
  for_each loop_body calls l g = Ok (l', g') →
  Forall (λ m, content_of m ≠ MENU) (l_outbound_msgs l) →
  Forall (λ m, content_of m ≠ MENU) (l_outbound_msgs l').
Proof.
  revert l g. induction calls as [|tc calls IH]; intros l g.
  - unfold for_each, ret. now intros [= <- _].
  - cbn [for_each]. intros H Hout.
    apply bind_inv in H as (l1 & g1 & Hbody & Hrest).
    apply loop_body_inv in Hbody as (r & Hd & Hout1).
    apply (IH _ _ Hrest). rewrite Hout1. apply Forall_app. split; [exact Hout|].
    apply Forall_singleton. cbn [content_of].
    apply dispatch_reply_head in Hd as (c & rest & -> & Hc).
    destruct MENU_head as (rest' & ->). intros [= E _]. now apply Hc.
Qed.

(** X7. The order node never serves the menu.  A [get_menu] request,
    though [get_menu] is a registered tool, is answered with
    "Unrecognized action." and changes nothing; and no reply that the
    node returns, to any batch, carries the menu text. *)
Theorem order_node_never_serves_menu :
  (∀ tc l g,
     tc_name tc = "get_menu" →
     loop_body tc l g =
     Ok ({| l_order := l_order l;
            l_outbound_msgs :=
              l_outbound_msgs l ++
              [ToolMessage "Unrecognized action." (tc_name tc) (tc_id tc)];
            l_order_placed := l_order_placed l |}, g)) ∧
  (∀ state g update g' m,
     order_node state g = Ok (update, g') →
     m ∈ messages update →
     content_of m ≠ get_menu).
Proof.
  split.
  - intros tc l g Hn. apply unhandled_only_replies. rewrite Hn. unfold handled.
    rewrite !not_elem_of_cons. repeat split; try discriminate.
    apply not_elem_of_nil.
  - intros state g update g' m Hnode Hin. unfold get_menu. revert m Hin.
    apply Forall_forall.
    revert Hnode. unfold order_node, bind at 1, lift at 1.
    destruct (last_item (messages state)) as [msg|e]; [|discriminate].
    unfold bind at 1, lift.
    destruct (get_tool_calls msg) as [calls|e]; [|discriminate].
    unfold bind.
    destruct (for_each loop_body calls _ g) as [[l g1]|e] eqn:Hloop; [|discriminate].
    unfold ret. intros [= <- _]. cbn [messages].
    now apply (loop_never_menu _ _ _ _ _ Hloop).
Qed.

(** *** Properties of the graph *)

Lemma route_cases state node :
  route state = Ok node → node = chatbot ∨ node = ordering.
Proof.
  unfold route. destruct (last_item (messages state)) as [msg|e]; [|discriminate].
  destruct (hasattr_tool_calls msg); intros [= <-]; tauto.
Qed.

Lemma run_from_stays limit node state g :
  node = chatbot ∨ node = ordering →
  (∀ final, (run_from limit node state g).1 ≠ Returned final) ∧
  Forall (λ n, n = chatbot ∨ n = ordering) (run_from limit node state g).2.
Proof.
  revert node state g. induction limit as [|limit IH]; intros node state g Hnode.
  - destruct Hnode as [-> | ->]; cbn; split; try discriminate; constructor.
  - assert (Hstep : ∀ node',
      node' = chatbot ∨ node' = ordering →
      ∀ state' g',
        (∀ final, (let '(outcome, trace) := run_from limit node' state' g' in
                   (outcome, node :: trace)).1 ≠ Returned final) ∧
        Forall (λ n, n = chatbot ∨ n = ordering)
          (let '(outcome, trace) := run_from limit node' state' g' in
           (outcome, node :: trace)).2).
    { intros node' Hnode' state' g'.
      destruct (IH node' state' g' Hnode') as [Hout Htrace].
      destruct (run_from limit node' state' g') as [outcome trace].
      cbn [fst snd] in *. split; [exact Hout|]. now constructor. }
    destruct Hnode as [-> | ->]; cbn [run_from].
    + destruct (run_node chatbot state g) as [[state' g']|e].
      * cbn [next_node].
        destruct (route state') as [node'|e] eqn:Hroute.
        -- apply Hstep. exact (route_cases _ _ Hroute).
        -- cbn. split; [discriminate|]. apply Forall_singleton. now left.
      * cbn. split; [discriminate|]. apply Forall_singleton. now left.
    + destruct (run_node ordering state g) as [[state' g']|e].
      * cbn [next_node]. apply Hstep. now left.
      * cbn. split; [discriminate|]. apply Forall_singleton. now right.
Qed.

(** X8. A call of [chat_graph.invoke] never returns a state.  No edge
    leads to the end of the graph: whatever the model answers, whatever
    the prebuilt tool node would do and however many steps are
    allowed, the run ends with an exception or at the step limit, and
    the only nodes that ever run are the chatbot and the ordering node.
    The tool node, and with it the tool functions, never runs. *)
Theorem invoke_never_returns limit state g :
  (∀ final, (invoke limit state g).1 ≠ Returned final) ∧
  (tools ∉ (invoke limit state g).2) ∧
  (END ∉ (invoke limit state g).2).
Proof.
  destruct (run_from_stays limit chatbot state g) as [Hout Htrace]; [now left|].
  unfold invoke. split; [exact Hout|].
  rewrite Forall_forall in Htrace.
  split; intros Hin; destruct (Htrace _ Hin); discriminate.
Qed.

Lemma route_after_reply reply state :
  hasattr_tool_calls reply = true → route (chatbot_node reply state) = Ok ordering.
Proof.
  intros Hattr. unfold route. cbn [chatbot_node messages].
  now rewrite last_item_snoc, Hattr.
Qed.

Lemma run_from_takes_turns limit :
  (∀ prompt, hasattr_tool_calls (llm_invoke prompt) = true) →
  (∀ state g, ∃ n,
     (run_from limit chatbot state g).2 = alternating n chatbot ordering ∧
     ((run_from limit chatbot state g).1 = GraphRecursionError ∧ n = limit ∨
      ∃ e, (run_from limit chatbot state g).1 = Failed e ∧
           last (run_from limit chatbot state g).2 = Some ordering)) ∧
  (∀ state g, ∃ n,
     (run_from limit ordering state g).2 = alternating n ordering chatbot ∧
     ((run_from limit ordering state g).1 = GraphRecursionError ∧ n = limit ∨
      ∃ e, (run_from limit ordering state g).1 = Failed e ∧
           last (run_from limit ordering state g).2 = Some ordering)).
Proof.
  intros Hmodel. induction limit as [|limit [IHc IHo]].
  - split; intros state g; exists O; cbn; split; try reflexivity; now left.
  - split; intros state g.
    + cbn [run_from run_node]. unfold ret. cbn [next_node].
      unfold chatbot_lambda. rewrite (route_after_reply _ _ (Hmodel _)).
      destruct (IHo (chatbot_node (llm_invoke (prompt state)) state) g)
        as (n & Htrace & Hend).
      destruct (run_from limit ordering _ g) as [outcome trace].
      cbn [fst snd] in *. exists (S n). cbn [alternating].
      split; [now rewrite Htrace|].
      destruct Hend as [[-> ->]|(e & -> & Hlast)]; [now left|right].
      exists e. split; [reflexivity|]. now rewrite last_cons, Hlast.
    + cbn [run_from run_node].
      destruct (ordering_node state g) as [[state' g']|e].
      * cbn [next_node].
        destruct (IHc state' g') as (n & Htrace & Hend).
        destruct (run_from limit chatbot state' g') as [outcome trace].
        cbn [fst snd] in *. exists (S n). cbn [alternating].
        split; [now rewrite Htrace|].
        destruct Hend as [[-> ->]|(e & -> & Hlast)]; [now left|right].
        exists e. split; [reflexivity|]. now rewrite last_cons, Hlast.
      * exists 1%nat. cbn. split; [reflexivity|]. right. now exists e.
Qed.

(** X9. The chatbot and the ordering node take turns.  For a step
    limit of at least 1 and a model that always answers with an
    assistant message, the nodes that run are the chatbot, the ordering
    node, the chatbot and so on, the chatbot first: the ordering node
    runs after every reply, also after one without requests.  The run
    ends at the step limit, after as many nodes as the limit allows, or
    with an exception of the ordering node. *)
Theorem invoke_takes_turns limit state g :
  (1 ≤ limit)%nat →
  (∀ prompt, hasattr_tool_calls (llm_invoke prompt) = true) →
  ∃ n,
    (1 ≤ n)%nat ∧
    (invoke limit state g).2 = alternating n chatbot ordering ∧
    ((invoke limit state g).1 = GraphRecursionError ∧ n = limit ∨
     ∃ e, (invoke limit state g).1 = Failed e ∧
          last (invoke limit state g).2 = Some ordering).
Proof.
  intros Hlimit Hmodel. unfold invoke.
  destruct (proj1 (run_from_takes_turns limit Hmodel) state g)
    as (n & Htrace & Hend).
  exists n. split; [|split; [exact Htrace|exact Hend]].
  destruct Hend as [[_ ->]|(e & _ & Hlast)]; [exact Hlimit|].
  destruct n as [|n]; [|lia].
  rewrite Htrace in Hlast. discriminate Hlast.
Qed.

(** *** Properties of the start-up *)

Lemma startup_ok_inv dotenv environ environ' :
  startup dotenv environ = Ok environ' →
  ∃ key,
    key ≠ "" ∧
    load_dotenv dotenv environ !! "GOOGLE_API_KEY" = Some key ∧
    environ' = load_dotenv dotenv environ.
Proof.
  unfold startup, getenv.
  destruct (load_dotenv dotenv environ !! "GOOGLE_API_KEY") as [key|] eqn:Hkey;
    [|discriminate].
  destruct (String.eqb_spec key "") as [->|Hne]; [discriminate|].
  intros [= <-]. exists key. split; [exact Hne|]. split; [reflexivity|].
  now apply insert_id.
Qed.

(** X11. The start-up check survives being run again.  Once it has
    passed, running it on the environment it left passes too, whatever
    the [.env] file holds by then, and keeps the key; with the same
    file the environment does not change any more. *)
Theorem startup_survives_rerun dotenv environ environ' :
  startup dotenv environ = Ok environ' →
  (∀ dotenv', ∃ environ'',
     startup dotenv' environ' = Ok environ'' ∧
     environ'' !! "GOOGLE_API_KEY" = environ' !! "GOOGLE_API_KEY") ∧
  startup dotenv environ' = Ok environ'.
Proof.
  intros Hok. destruct (startup_ok_inv _ _ _ Hok) as (key & Hne & Hkey & ->).
  assert (Hrun : ∀ dotenv',
    startup dotenv' (load_dotenv dotenv environ) =
    Ok (load_dotenv dotenv' (load_dotenv dotenv environ))).
  { intros dotenv'. unfold startup, getenv.
    assert (Hkey' : load_dotenv dotenv' (load_dotenv dotenv environ)
                      !! "GOOGLE_API_KEY" = Some key).
    { unfold load_dotenv at 1. now apply lookup_union_Some_l. }
    rewrite Hkey'. apply String.eqb_neq in Hne. rewrite Hne.
    f_equal. now apply insert_id. }
  split.
  - intros dotenv'. eexists. split; [apply Hrun|].
    rewrite Hkey. unfold load_dotenv at 1. now apply lookup_union_Some_l.
  - rewrite Hrun. f_equal. unfold load_dotenv.
    now rewrite <- (assoc_L (∪)), (idemp_L (∪)).
Qed.

(** X12. A start-up that passes leaves the environment as
    [load_dotenv] made it: the assignment of line 22 writes back the
    value that is there.  Every variable of the process keeps its
    value, and the [.env] file supplies only the variables the process
    did not have. *)
Theorem startup_keeps_environment dotenv environ environ' :
  startup dotenv environ = Ok environ' →
  environ' = load_dotenv dotenv environ ∧
  (∀ k v, environ !! k = Some v → environ' !! k = Some v) ∧
  (∀ k, environ !! k = None → environ' !! k = dotenv !! k).
Proof.
  intros Hok. destruct (startup_ok_inv _ _ _ Hok) as (key & _ & _ & ->).
  split; [reflexivity|]. unfold load_dotenv. split.
  - intros k v Hk. now apply lookup_union_Some_l.
  - intros k Hk. now apply lookup_union_r.
Qed.

(** X13. A key exported in the process decides alone.  When the
    process environment has the variable, the [.env] file is not
    consulted for it: the start-up fails on an empty value even if the
    file holds a key, and passes on any other value whatever the file
    holds. *)
Theorem exported_key_decides dotenv environ key :
  environ !! "GOOGLE_API_KEY" = Some key →
  startup dotenv environ =
  if String.eqb key "" then Raise (ValueError key_not_found)
  else Ok (load_dotenv dotenv environ).
Proof.
  intros Hkey. unfold startup, getenv.
  assert (Hkey' : load_dotenv dotenv environ !! "GOOGLE_API_KEY" = Some key).
  { unfold load_dotenv. now apply lookup_union_Some_l. }
  rewrite Hkey'. destruct (String.eqb key ""); [reflexivity|].
  f_equal. now apply insert_id.
Qed.

(** *** The node and the list it works on *)

Lemma dispatch_inplace_agrees tc o p g :
  dispatch_inplace tc p o g =
  match dispatch tc o p g with
  | Ok (r, o', p', g') => (Ok (r, p'), (o', g'))
  | Raise e => (Raise e, (o, g))
  end.
Proof.
  destruct (name_cases tc) as [Hn|[Hn|[Hn|[Hn|Hn]]]].
  - unfold dispatch_inplace, dispatch, bindH, bind, liftH, lift, getitem.
    rewrite Hn. cbn [String.eqb Ascii.eqb Bool.eqb].
    destruct (tc_args tc !! "drink"); [|reflexivity].
    destruct (tc_args tc !! "modifiers"); reflexivity.
  - rewrite dispatch_confirm by done. unfold dispatch_inplace. now rewrite Hn.
  - rewrite dispatch_clear by done. unfold dispatch_inplace. now rewrite Hn.
  - rewrite dispatch_place by done. unfold dispatch_inplace. now rewrite Hn.
  - rewrite dispatch_else by done. unfold dispatch_inplace.
    unfold handled in Hn. rewrite !not_elem_of_cons in Hn.
    destruct Hn as (H1 & H2 & H3 & H4 & _).
    apply String.eqb_neq in H1, H2, H3, H4. now rewrite H1, H2, H3, H4.
Qed.

Lemma loop_body_inplace_agrees tc o out p g :
  loop_body_inplace tc (out, p) o g =
  match loop_body tc
          {| l_order := o; l_outbound_msgs := out; l_order_placed := p |} g with
  | Ok (l, g') => (Ok (l_outbound_msgs l, l_order_placed l), (l_order l, g'))
  | Raise e => (Raise e, (o, g))
  end.
Proof.
  unfold loop_body_inplace, loop_body, bindH, bind.
  rewrite dispatch_inplace_agrees. cbn [l_order l_order_placed l_outbound_msgs snd].
  now destruct (dispatch tc o p g) as [[[[r o'] p'] g']|e].
Qed.

Lemma loop_inplace_ok calls o out p g l g' :
  for_each loop_body calls
    {| l_order := o; l_outbound_msgs := out; l_order_placed := p |} g = Ok (l, g') →
  for_eachH loop_body_inplace calls (out, p) o g =
  (Ok (l_outbound_msgs l, l_order_placed l), (l_order l, g')).
Proof.
  revert o out p g. induction calls as [|tc calls IH]; intros o out p g.
  - unfold for_each, ret. now intros [= <- <-].
  - cbn [for_each for_eachH]. intros H.
    apply bind_inv in H as ([o1 out1 p1] & g1 & Hbody & Hrest).
    unfold bindH. rewrite loop_body_inplace_agrees, Hbody.
    cbn [l_order l_outbound_msgs l_order_placed]. now apply IH.
Qed.

Lemma loop_inplace_raise pre tc post o out p g l1 g1 e :
  for_each loop_body pre
    {| l_order := o; l_outbound_msgs := out; l_order_placed := p |} g = Ok (l1, g1) →
  loop_body tc l1 g1 = Raise e →
  for_eachH loop_body_inplace (pre ++ tc :: post) (out, p) o g =
  (Raise e, (l_order l1, g1)).
Proof.
  revert o out p g. induction pre as [|tc0 pre IH]; intros o out p g.
  - unfold for_each, ret. intros [= <- <-] Hraise.
    cbn [app for_eachH]. unfold bindH.
    now rewrite loop_body_inplace_agrees, Hraise.
  - cbn [for_each app for_eachH]. intros H Hraise.
    apply bind_inv in H as ([o1 out1 p1] & g2 & Hbody & Hrest).
    unfold bindH. rewrite loop_body_inplace_agrees, Hbody.
    cbn [l_order l_outbound_msgs l_order_placed]. now apply IH.
Qed.

(** X14. The order returned is the list of the state.  When the node
    returns, working on the list object gives the same result as
    working on its contents, and the list that the state held has
    itself become the order returned: the node changes its input in
    place. *)
Theorem order_node_updates_list_in_place state g update g' :
  order_node state g = Ok (update, g') →
  ∃ o,
    order update = Some o ∧
    order_node_inplace state g = (Ok update, ((λ _, o) <$> order state, g')).
Proof.
  unfold order_node, order_node_inplace, bind at 1, lift at 1.
  destruct (last_item (messages state)) as [msg|e]; [|discriminate].
  unfold bind at 1, lift.
  destruct (get_tool_calls msg) as [calls|e]; [|discriminate].
  unfold bind.
  destruct (for_each loop_body calls _ g) as [[l g1]|e] eqn:Hloop; [|discriminate].
  unfold ret. intros [= <- <-]. exists (l_order l). split; [reflexivity|].
  now rewrite (loop_inplace_ok _ _ _ _ _ _ _ Hloop).
Qed.

(** X15. A batch that fails is not rolled back.  When an
    [add_to_order] request lacks an argument, the node raises
    [KeyError], and the list of the state and the generator are left
    as the requests before it made them: the items they added stay
    added, and an order they cleared stays cleared. *)
Theorem failed_batch_is_not_rolled_back state content pre tc post g :
  forallb has_args pre = true →
  has_args tc = false →
  ∃ update g1 o,
    order_node (chatbot_node (AIMessage content pre) state) g = Ok (update, g1) ∧
    order update = Some o ∧
    order_node_inplace
      (chatbot_node (AIMessage content (pre ++ tc :: post)) state) g =
    (Raise (KeyError match tc_args tc !! "drink" with
                     | None => "drink"
                     | Some _ => "modifiers"
                     end),
     ((λ _, o) <$> order state, g1)).
Proof.
  intros Hpre Htc.
  destruct (order_node_returns (chatbot_node (AIMessage content pre) state)
              content pre g) as (l1 & g1 & Hloop & Hnode);
    [apply last_snoc|exact Hpre|].
  eexists _, g1, (l_order l1).
  split; [exact Hnode|]. split; [reflexivity|].
  unfold order_node_inplace. cbn [chatbot_node messages order].
  rewrite last_item_snoc. cbn [get_tool_calls].
  cbn [chatbot_node order] in Hloop.
  assert (Hraise : loop_body tc l1 g1 =
            Raise (KeyError match tc_args tc !! "drink" with
                            | None => "drink"
                            | Some _ => "modifiers"
                            end)).
  { unfold loop_body, bind at 1, dispatch. unfold has_args in Htc.
    destruct (String.eqb (tc_name tc) "add_to_order"); [|discriminate].
    unfold bind, lift, getitem.
    destruct (tc_args tc !! "drink") as [d|]; [|reflexivity].
    destruct (tc_args tc !! "modifiers") as [m|]; [|reflexivity].
    exfalso. apply andb_false_iff in Htc as [Hd|Hm].
    - apply bool_decide_eq_false in Hd. apply Hd. eauto.
    - apply bool_decide_eq_false in Hm. apply Hm. eauto. }
  now rewrite (loop_inplace_raise _ _ post _ _ _ _ _ _ _ Hloop Hraise).
Qed.

End Runtime.

Arguments ret {rng A} a.
Arguments bind {rng A B} c k.
Arguments lift {rng A} r.
Arguments for_each {rng A S} body xs s.

(** ** The program on the deterministic runtime *)

Lemma counting_randint_range (a b g : Z) :
  (a ≤ b)%Z → (a ≤ (counting_randint a b g).1 ≤ b)%Z.
Proof.
  intros Hab. unfold counting_randint. cbn [fst].
  pose proof (Z.mod_pos_bound g (b - a + 1)) as Hmod. lia.
Qed.

(** The example of the specification: two additions, a clearance and a
    placement, from the empty session. *)
Example spec_example :
  order_node Z counting_randint plain_repr ascii_chars
    (chatbot_node (AIMessage "" [add_latte; add_espresso; do_clear; do_place])
       initial_state) 0 =
  Ok ({| messages :=
           [ToolMessage "Order updated: Latte (Oat, Vanilla)." "add_to_order" "c1";
            ToolMessage "Order updated: Latte (Oat, Vanilla), Espresso (no modifiers)."
              "add_to_order" "c2";
            ToolMessage "Order cleared." "clear_order" "c4";
            ToolMessage "Order placed! ETA: 1 minutes." "place_order" "c5"];
         order := Some [];
         finished := true |}, 1%Z).
Proof. vm_compute. reflexivity. Qed.

(** C1, refuted as stated: the flag is true after the step that places
    the order and false after the next step, which only confirms. *)
Lemma finished_reset_counterexample :
  ¬ (rounds Z counting_randint plain_repr ascii_chars
       [AIMessage "" [do_place]] initial_state 0 = Ok (after_place, 1%Z) →
     finished after_place = true →
     rounds Z counting_randint plain_repr ascii_chars
       [AIMessage "" [do_confirm]] after_place 1 = Ok (after_confirm, 1%Z) →
     finished after_confirm = true).
Proof.
  intros Hclaim.
  assert (Hreset : finished after_confirm = true).
  { apply Hclaim; vm_compute; reflexivity. }
  discriminate Hreset.
Qed.

Lemma finished_tracks_latest_batch_witness :
  forallb valid_reply [AIMessage "" [add_latte; do_place]] = true ∧
  forallb has_args [do_confirm] = true ∧
  ∃ state' g',
    rounds Z counting_randint plain_repr ascii_chars
      ([AIMessage "" [add_latte; do_place]] ++ [AIMessage "" [do_confirm]])
      initial_state 0 = Ok (state', g') ∧
    finished state' = existsb (named "place_order") [do_confirm].
Proof.
  split; [vm_compute; reflexivity|]. split; [vm_compute; reflexivity|].
  apply (finished_tracks_latest_batch Z counting_randint plain_repr ascii_chars);
    vm_compute; reflexivity.
Defined.

Lemma add_to_order_appends_line_items_witness :
  let state := chatbot_node (AIMessage "" [add_latte; add_espresso]) initial_state in
  let items := [("Latte", ["Oat"; "Vanilla"]); ("Espresso", [])] in
  order_node Z counting_randint plain_repr ascii_chars state 0 =
    Ok ({| messages := add_replies [] [add_latte; add_espresso] items;
           order := Some ([] ++ (line_item <$> items));
           finished := false |}, 0%Z).
Proof.
  intros state items.
  apply (add_to_order_appends_line_items Z counting_randint plain_repr ascii_chars
           state "" [add_latte; add_espresso] items 0).
  - reflexivity.
  - repeat constructor; vm_compute; reflexivity.
Defined.

Lemma place_order_sets_finished_eta_in_range_witness :
  tc_name do_place = "place_order" ∧
  ∃ eta g',
    place_order Z counting_randint [] 3 = Ok (eta, g') ∧ (1 ≤ eta ≤ 5)%Z.
Proof.
  split; [reflexivity|].
  apply (place_order_sets_finished_eta_in_range Z counting_randint
           counting_randint_range plain_repr ascii_chars do_place).
  reflexivity.
Defined.

Lemma refund_not_in_catalog : tc_name do_refund ∉ catalog.
Proof.
  unfold catalog. rewrite !not_elem_of_cons. cbn.
  repeat split; try discriminate. apply not_elem_of_nil.
Qed.

(** C5, refuted as stated: after the order has been placed, a step
    whose only request has an unregistered name returns the flag to
    false. *)
Lemma unregistered_tool_resets_finished_counterexample :
  ¬ (tc_name do_refund ∉ catalog →
     ordering_node Z counting_randint plain_repr ascii_chars
       (chatbot_node (AIMessage "" [do_refund]) after_place) 1 =
       Ok (after_refund, 1%Z) →
     finished after_refund = finished after_place).
Proof.
  intros Hclaim.
  assert (Hsame : finished after_refund = finished after_place).
  { apply Hclaim; [exact refund_not_in_catalog|vm_compute; reflexivity]. }
  discriminate Hsame.
Qed.

Lemma unregistered_tool_only_replies_witness :
  (tc_name do_refund ∉ catalog) ∧
  ordering_node Z counting_randint plain_repr ascii_chars
    (chatbot_node (AIMessage "" [do_refund]) after_place) 1 =
  Ok ({| messages :=
           messages after_place ++
           [AIMessage "" [do_refund];
            ToolMessage "Unrecognized action." (tc_name do_refund) (tc_id do_refund)];
         order := Some (default [] (order after_place));
         finished := false |}, 1%Z).
Proof.
  split; [exact refund_not_in_catalog|].
  apply (unregistered_tool_only_replies Z counting_randint plain_repr ascii_chars
           do_refund refund_not_in_catalog).
Defined.

Lemma finished_iff_batch_places_order_witness :
  let state := chatbot_node (AIMessage "" [do_confirm]) after_place in
  finished state = true ∧
  ∃ update g',
    order_node Z counting_randint plain_repr ascii_chars state 1 = Ok (update, g') ∧
    (finished update = true ↔
     ∃ tc, tc ∈ [do_confirm] ∧ tc_name tc = "place_order") ∧
    ((∀ tc, tc ∈ [do_confirm] → tc_name tc ≠ "place_order") →
     finished update = false).
Proof.
  intros state. split; [reflexivity|].
  apply (finished_iff_batch_places_order Z counting_randint plain_repr ascii_chars
           state "" [do_confirm] 1); reflexivity.
Defined.

(** C7, refuted as stated: after the order has been placed, a step
    whose only request is [confirm_order] returns the flag to false. *)
Lemma confirm_order_resets_finished_counterexample :
  ¬ (tc_name do_confirm = "confirm_order" →
     ordering_node Z counting_randint plain_repr ascii_chars
       (chatbot_node (AIMessage "" [do_confirm]) after_place) 1 =
       Ok (after_confirm, 1%Z) →
     finished after_confirm = finished after_place).
Proof.
  intros Hclaim.
  assert (Hsame : finished after_confirm = finished after_place).
  { apply Hclaim; [reflexivity|vm_compute; reflexivity]. }
  discriminate Hsame.
Qed.

Lemma confirm_order_restates_order_witness :
  tc_name do_confirm = "confirm_order" ∧
  ordering_node Z counting_randint plain_repr ascii_chars
    (chatbot_node (AIMessage "" [do_confirm]) with_latte) 0 =
  Ok ({| messages :=
           messages with_latte ++
           [AIMessage "" [do_confirm];
            ToolMessage
              ("Your order is: " +:+ join ", " (default [] (order with_latte)) +:+
               ". Is this correct?") (tc_name do_confirm) (tc_id do_confirm)];
         order := Some (default [] (order with_latte));
         finished := false |}, 0%Z).
Proof.
  split; [reflexivity|].
  apply (confirm_order_restates_order Z counting_randint plain_repr ascii_chars
           do_confirm eq_refl).
Defined.

Lemma clear_order_empties_idempotent_witness :
  tc_name do_clear = "clear_order" ∧
  for_each (loop_body Z counting_randint plain_repr ascii_chars) [do_clear; do_clear]
    {| l_order := ["Latte (Oat, Vanilla)"]; l_outbound_msgs := [];
       l_order_placed := false |} 0 =
  Ok ({| l_order := [];
         l_outbound_msgs :=
           ([] ++ [ToolMessage "Order cleared." (tc_name do_clear) (tc_id do_clear)]) ++
           [ToolMessage "Order cleared." (tc_name do_clear) (tc_id do_clear)];
         l_order_placed := false |}, 0%Z).
Proof.
  split; [reflexivity|].
  apply (clear_order_empties_idempotent Z counting_randint plain_repr ascii_chars
           do_clear do_clear eq_refl eq_refl).
Defined.


Lemma missing_credential_fails_at_startup_witness :
  script ∅ ∅ (λ environ, Ok environ) = Raise (ValueError key_not_found) ∧
  script {["GOOGLE_API_KEY" := "secret"]} ∅ (λ environ, Ok environ) =
  Ok (<["GOOGLE_API_KEY" := "secret"]>
        (load_dotenv {["GOOGLE_API_KEY" := "secret"]} ∅)).
Proof.
  split.
  - apply (missing_credential_fails_at_startup Z counting_randint plain_repr
             ascii_chars ∅ ∅).
    left. reflexivity.
  - apply (missing_credential_fails_at_startup Z counting_randint plain_repr
             ascii_chars {["GOOGLE_API_KEY" := "secret"]} ∅).
    + vm_compute. reflexivity.
    + discriminate.
Defined.

(** ** The further properties on the deterministic runtime *)

Lemma order_node_returns_iff_witness :
  let calls := [add_latte; add_no_modifiers] in
  let state := chatbot_node (AIMessage "" calls) initial_state in
  last (messages state) = Some (AIMessage "" calls) ∧
  ((∃ update g',
      order_node Z counting_randint plain_repr ascii_chars state 0 = Ok (update, g')) ↔
   forallb has_args calls = true).
Proof.
  intros calls state. split; [reflexivity|].
  apply (order_node_returns_iff Z counting_randint plain_repr ascii_chars
           state "" calls 0).
  reflexivity.
Defined.

Lemma order_node_error_cases_witness :
  let state :=
    chatbot_node (AIMessage "" ([add_latte] ++ add_no_args :: [do_clear])) with_latte in
  forallb has_args [add_latte] = true ∧
  has_args add_no_args = false ∧
  order_node Z counting_randint plain_repr ascii_chars state 0 =
  Raise (KeyError match tc_args add_no_args !! "drink" with
                  | None => "drink"
                  | Some _ => "modifiers"
                  end).
Proof.
  intros state. split; [vm_compute; reflexivity|]. split; [vm_compute; reflexivity|].
  apply (proj1 (proj2 (proj2 (order_node_error_cases Z counting_randint plain_repr
                                ascii_chars state 0)))
           "" [add_latte] add_no_args [do_clear]).
  - reflexivity.
  - vm_compute. reflexivity.
  - vm_compute. reflexivity.
Defined.

Lemma order_kept_without_add_or_clear_witness :
  let calls := [do_confirm; do_place; do_menu] in
  let state := chatbot_node (AIMessage "" calls) with_latte in
  ∃ update g',
    order_node Z counting_randint plain_repr ascii_chars state 0 = Ok (update, g') ∧
    order update = Some (default [] (order state)).
Proof.
  intros calls state.
  apply (order_kept_without_add_or_clear Z counting_randint plain_repr ascii_chars
           state "" calls 0).
  - reflexivity.
  - intros tc Hin. unfold calls in Hin. rewrite !elem_of_cons in Hin.
    destruct Hin as [->|[->|[->|Hin]]]; [split; discriminate ..|].
    now apply elem_of_nil in Hin.
Defined.

Lemma one_draw_per_place_order_witness :
  let calls := [do_place; add_latte; do_place] in
  let state := chatbot_node (AIMessage "" calls) initial_state in
  forallb has_args calls = true ∧
  ∃ update,
    order_node Z counting_randint plain_repr ascii_chars state 0 =
    Ok (update,
        Nat.iter (length (List.filter (named "place_order") calls))
          (λ g, (counting_randint 1 5 g).2) 0%Z).
Proof.
  intros calls state. split; [vm_compute; reflexivity|].
  apply (one_draw_per_place_order Z counting_randint plain_repr ascii_chars
           state "" calls 0).
  - reflexivity.
  - vm_compute. reflexivity.
Defined.

Lemma clear_order_forgets_the_past_witness :
  ∃ update1 update2 g1 g2,
    order_node Z counting_randint plain_repr ascii_chars
      (chatbot_node (AIMessage "" ([add_latte] ++ do_clear :: [add_espresso]))
         with_latte) 0 = Ok (update1, g1) ∧
    order_node Z counting_randint plain_repr ascii_chars
      (chatbot_node (AIMessage "Done." ([do_place] ++ do_clear :: [add_espresso]))
         initial_state) 3 = Ok (update2, g2) ∧
    order update1 = order update2.
Proof.
  eexists _, _, _, _. split; [vm_compute; reflexivity|].
  split; [vm_compute; reflexivity|].
  eapply (clear_order_forgets_the_past Z counting_randint plain_repr ascii_chars
            do_clear do_clear with_latte initial_state "" "Done."
            [add_latte] [do_place] [add_espresso] 0 3);
    [reflexivity | reflexivity | vm_compute; reflexivity | vm_compute; reflexivity].
Defined.

Lemma order_node_reads_only_witness :
  let calls1 := [add_latte; do_confirm; do_place] in
  let calls2 := [add_latte; call "confirm_order" [] "c3";
                 call "place_order" [("order", VList ["Mocha"]); ("tip", VStr "1")] "c5"] in
  let state1 := chatbot_node (AIMessage "" calls1) after_place in
  let state2 :=
    chatbot_node (AIMessage "One moment." calls2)
      {| messages := []; order := None; finished := false |} in
  order_node Z counting_randint plain_repr ascii_chars state1 4 =
  order_node Z counting_randint plain_repr ascii_chars state2 4.
Proof.
  intros calls1 calls2 state1 state2.
  apply (order_node_reads_only Z counting_randint plain_repr ascii_chars
           state1 state2 "" "One moment." calls1 calls2 4).
  - reflexivity.
  - reflexivity.
  - vm_compute. reflexivity.
  - reflexivity.
Defined.

Lemma order_node_never_serves_menu_witness :
  tc_name do_menu = "get_menu" ∧
  loop_body Z counting_randint plain_repr ascii_chars do_menu
    {| l_order := []; l_outbound_msgs := []; l_order_placed := false |} 0 =
  Ok ({| l_order := [];
         l_outbound_msgs :=
           [] ++ [ToolMessage "Unrecognized action." (tc_name do_menu) (tc_id do_menu)];
         l_order_placed := false |}, 0%Z).
Proof.
  split; [reflexivity|].
  apply (order_node_never_serves_menu Z counting_randint plain_repr ascii_chars).
  reflexivity.
Defined.

Lemma invoke_takes_turns_witness :
  (1 ≤ 25)%nat ∧
  (∀ prompt, hasattr_tool_calls (plain_model prompt) = true) ∧
  ∃ n,
    (1 ≤ n)%nat ∧
    (invoke Z counting_randint plain_repr ascii_chars plain_model idle_tool_node
       25 initial_state 0).2 = alternating n chatbot ordering ∧
    ((invoke Z counting_randint plain_repr ascii_chars plain_model idle_tool_node
        25 initial_state 0).1 = GraphRecursionError ∧ n = 25%nat ∨
     ∃ e,
       (invoke Z counting_randint plain_repr ascii_chars plain_model idle_tool_node
          25 initial_state 0).1 = Failed e ∧
       last (invoke Z counting_randint plain_repr ascii_chars plain_model
               idle_tool_node 25 initial_state 0).2 = Some ordering).
Proof.
  assert (Hlimit : (1 ≤ 25)%nat) by lia.
  assert (Hmodel : ∀ prompt, hasattr_tool_calls (plain_model prompt) = true)
    by reflexivity.
  split; [exact Hlimit|]. split; [exact Hmodel|].
  apply (invoke_takes_turns Z counting_randint plain_repr ascii_chars
           plain_model idle_tool_node 25 initial_state 0 Hlimit Hmodel).
Defined.

Lemma startup_survives_rerun_witness :
  let dotenv : gmap string string := {["GOOGLE_API_KEY" := "secret"]} in
  startup dotenv ∅ = Ok dotenv ∧ startup dotenv dotenv = Ok dotenv.
Proof.
  intros dotenv.
  assert (Hok : startup dotenv ∅ = Ok dotenv).
  { vm_compute. reflexivity. }
  split; [exact Hok|].
  apply (startup_survives_rerun dotenv ∅ dotenv Hok).
Defined.

Lemma startup_keeps_environment_witness :
  let dotenv : gmap string string :=
    {["GOOGLE_API_KEY" := "from file"; "HOME" := "/srv"]} in
  let environ : gmap string string := {["HOME" := "/root"]} in
  let environ' : gmap string string :=
    {["GOOGLE_API_KEY" := "from file"; "HOME" := "/root"]} in
  startup dotenv environ = Ok environ' ∧ environ' = load_dotenv dotenv environ.
Proof.
  intros dotenv environ environ'.
  assert (Hok : startup dotenv environ = Ok environ').
  { vm_compute. reflexivity. }
  split; [exact Hok|].
  apply (startup_keeps_environment dotenv environ environ' Hok).
Defined.

Lemma exported_key_decides_witness :
  let dotenv : gmap string string := {["GOOGLE_API_KEY" := "from file"]} in
  let environ : gmap string string := {["GOOGLE_API_KEY" := ""]} in
  environ !! "GOOGLE_API_KEY" = Some "" ∧
  startup dotenv environ = Raise (ValueError key_not_found).
Proof.
  intros dotenv environ.
  assert (Hkey : environ !! "GOOGLE_API_KEY" = Some "").
  { vm_compute. reflexivity. }
  split; [exact Hkey|].
  apply (exported_key_decides dotenv environ "" Hkey).
Defined.

Lemma order_node_updates_list_in_place_witness :
  let state := chatbot_node (AIMessage "" [add_espresso; do_place]) with_latte in
  let update :=
    {| messages :=
         [ToolMessage "Order updated: Latte (Oat, Vanilla), Espresso (no modifiers)."
            "add_to_order" "c2";
          ToolMessage "Order placed! ETA: 1 minutes." "place_order" "c5"];
       order := Some ["Latte (Oat, Vanilla)"; "Espresso (no modifiers)"];
       finished := true |} in
  order_node Z counting_randint plain_repr ascii_chars state 0 = Ok (update, 1%Z) ∧
  ∃ o,
    order update = Some o ∧
    order_node_inplace Z counting_randint plain_repr ascii_chars state 0 =
    (Ok update, ((λ _, o) <$> order state, 1%Z)).
Proof.
  intros state update.
  assert (Hnode : order_node Z counting_randint plain_repr ascii_chars state 0 =
                  Ok (update, 1%Z)).
  { vm_compute. reflexivity. }
  split; [exact Hnode|].
  apply (order_node_updates_list_in_place Z counting_randint plain_repr ascii_chars
           state 0 update 1 Hnode).
Defined.

Lemma failed_batch_is_not_rolled_back_witness :
  forallb has_args [add_espresso; do_place] = true ∧
  has_args add_no_modifiers = false ∧
  ∃ update g1 o,
    order_node Z counting_randint plain_repr ascii_chars
      (chatbot_node (AIMessage "" [add_espresso; do_place]) with_latte) 0 =
      Ok (update, g1) ∧
    order update = Some o ∧
    order_node_inplace Z counting_randint plain_repr ascii_chars
      (chatbot_node
         (AIMessage "" ([add_espresso; do_place] ++ add_no_modifiers :: [do_clear]))
         with_latte) 0 =
    (Raise (KeyError match tc_args add_no_modifiers !! "drink" with
                     | None => "drink"
                     | Some _ => "modifiers"
                     end),
     ((λ _, o) <$> order with_latte, g1)).
Proof.
  split; [vm_compute; reflexivity|]. split; [vm_compute; reflexivity|].
  apply (failed_batch_is_not_rolled_back Z counting_randint plain_repr ascii_chars
           with_latte "" [add_espresso; do_place] add_no_modifiers [do_clear] 0);
    vm_compute; reflexivity.
Defined.

(** The failed batch of the last lemma, run: the espresso stays in the
    list although the call ends in [KeyError], and the draw for the
    placement stays drawn. *)
Example failed_batch_example :
  order_node_inplace Z counting_randint plain_repr ascii_chars
    (chatbot_node
       (AIMessage "" ([add_espresso; do_place] ++ add_no_modifiers :: [do_clear]))
       with_latte) 0 =
  (Raise (KeyError "modifiers"),
   (Some ["Latte (Oat, Vanilla)"; "Espresso (no modifiers)"], 1%Z)).
Proof. vm_compute. reflexivity. Qed.
